(** * websocketproxy: a shallow embedding of [proxy.go]

    The development follows the source file top to bottom: the pieces of
    Go's [strings], [net/textproto] and [net/http] packages the proxy calls,
    the header constants and lists, the header transforms, the Director built
    by [NewSingleHostReverseProxy], [logf], [ServeHTTP] and
    [replicateWebsocketConn].  Go strings are byte strings, as Rocq's
    [string] is; a Go [map[string][]string] is a [gmap string (list string)];
    pointers are locations into an explicit store. *)

From Stdlib Require Import ZArith String Ascii List Lia DecimalString.
From stdpp Require Import base option list gmap strings.

Open Scope string_scope.

(** ** Go's [strings] package, as far as the proxy uses it *)

Module Strings.

(** [s[n:]]; the callers guard [n <= len(s)]. *)
Fixpoint sliceFrom (n : nat) (s : string) : string :=
  match n, s with
  | O, _ => s
  | S n', String _ s' => sliceFrom n' s'
  | S _, EmptyString => EmptyString
  end.

(** [strings.HasPrefix(s, prefix)]:
    [len(s) >= len(prefix) && s[:len(prefix)] == prefix]. *)
Definition HasPrefix (s prefix : string) : bool :=
  (String.length prefix <=? String.length s)%nat
  && String.eqb (substring 0 (String.length prefix) s) prefix.

(** [strings.HasSuffix(s, suffix)]:
    [len(s) >= len(suffix) && s[len(s)-len(suffix):] == suffix]. *)
Definition HasSuffix (s suffix : string) : bool :=
  (String.length suffix <=? String.length s)%nat
  && String.eqb (sliceFrom (String.length s - String.length suffix) s) suffix.

(** [strings.Split(s, sep)] for a one-byte separator: the fields between
    the separators, always at least one field. *)
Fixpoint splitByte (sep : ascii) (s : string) : list string :=
  match s with
  | EmptyString => [EmptyString]
  | String c s' =>
      if Ascii.eqb c sep then EmptyString :: splitByte sep s'
      else match splitByte sep s' with
           | f :: fs => String c f :: fs
           | [] => [String c EmptyString]
           end
  end.

(** The ASCII white space of [strings.TrimSpace]:
    tab, line feed, vertical tab, form feed, carriage return, space. *)
Definition asciiSpace (c : ascii) : bool :=
  let n := nat_of_ascii c in
  ((9 <=? n) && (n <=? 13) || (n =? 32))%nat.

Fixpoint trimLeftASCII (s : string) : string :=
  match s with
  | String c s' => if asciiSpace c then trimLeftASCII s' else s
  | EmptyString => EmptyString
  end.

Fixpoint trimRightASCII (s : string) : string :=
  match s with
  | EmptyString => EmptyString
  | String c s' =>
      match trimRightASCII s' with
      | EmptyString => if asciiSpace c then EmptyString else String c EmptyString
      | t => String c t
      end
  end.

(** [strings.TrimSpace] on strings of ASCII bytes.  On other strings Go
    also trims the Unicode spaces; the header transforms below take the
    trimming function as a parameter and this one is an instance of it. *)
Definition TrimSpaceASCII (s : string) : string :=
  trimRightASCII (trimLeftASCII s).

End Strings.

(** ** [singleJoiningSlash] *)

Definition singleJoiningSlash (a b : string) : string :=
  let aslash := Strings.HasSuffix a "/" in
  let bslash := Strings.HasPrefix b "/" in
  if aslash && bslash then a ++ Strings.sliceFrom 1 b
  else if negb aslash && negb bslash then a ++ "/" ++ b
  else a ++ b.

(** ** [net/textproto]: canonical header keys *)

Module Textproto.

Definition isLower (c : ascii) : bool :=
  let n := nat_of_ascii c in ((97 <=? n) && (n <=? 122))%nat.

Definition isUpper (c : ascii) : bool :=
  let n := nat_of_ascii c in ((65 <=? n) && (n <=? 90))%nat.

Definition isDigit (c : ascii) : bool :=
  let n := nat_of_ascii c in ((48 <=? n) && (n <=? 57))%nat.

(** [validHeaderFieldByte]: the token bytes of RFC 7230. *)
Definition validHeaderFieldByte (c : ascii) : bool :=
  isLower c || isUpper c || isDigit c
  || existsb (Ascii.eqb c)
       ["!"; "#"; "$"; "%"; "&"; "'"; "*"; "+"; "-"; "."; "^"; "_"; "`"; "|"; "~"]%char.

Fixpoint allValid (s : string) : bool :=
  match s with
  | EmptyString => true
  | String c s' => validHeaderFieldByte c && allValid s'
  end.

Definition toLower : nat := 32.

(** One step of the canonicalising loop: upper case after the start and
    after each dash, lower case elsewhere. *)
Definition canonByte (upper : bool) (c : ascii) : ascii :=
  if upper && isLower c then ascii_of_nat (nat_of_ascii c - toLower)
  else if negb upper && isUpper c then ascii_of_nat (nat_of_ascii c + toLower)
  else c.

Fixpoint canonLoop (upper : bool) (s : string) : string :=
  match s with
  | EmptyString => EmptyString
  | String c s' =>
      let c' := canonByte upper c in
      String c' (canonLoop (Ascii.eqb c' "-") s')
  end.

(** [textproto.CanonicalMIMEHeaderKey]: a key with a byte that is not a
    token byte is returned unchanged, any other key is canonicalised. *)
Definition CanonicalMIMEHeaderKey (s : string) : string :=
  if allValid s then canonLoop true s else s.

End Textproto.

(** ** [net/http]: header sets *)

Abbreviation Header := (gmap string (list string)).

Module Http.

Definition Get (h : Header) (key : string) : string :=
  match h !! Textproto.CanonicalMIMEHeaderKey key with
  | Some (v :: _) => v
  | _ => ""
  end.

(** [h[key] = append(h[key], value)] at the canonical key. *)
Definition Add (h : Header) (key value : string) : Header :=
  let k := Textproto.CanonicalMIMEHeaderKey key in
  <[k := (default [] (h !! k) ++ [value])%list]> h.

Definition Set_ (h : Header) (key value : string) : Header :=
  <[Textproto.CanonicalMIMEHeaderKey key := [value]]> h.

Definition Del (h : Header) (key : string) : Header :=
  delete (Textproto.CanonicalMIMEHeaderKey key) h.

Definition StatusBadGateway : Z := 502.

End Http.

(** ** Header names and lists *)

Definition Connection := "Connection".
Definition KeepAlive := "Keep-Alive".
Definition ProxyAuthenticate := "Proxy-Authenticate".
Definition ProxyAuthorization := "Proxy-Authorization".
Definition Te := "Te".
Definition Trailers := "Trailers".
Definition TransferEncoding := "Transfer-Encoding".
Definition Upgrade := "Upgrade".
Definition SecWebsocketKey := "Sec-Websocket-Key".
Definition SecWebsocketVersion := "Sec-Websocket-Version".
Definition SecWebsocketExtensions := "Sec-Websocket-Extensions".
Definition SecWebsocketAccept := "Sec-Websocket-Accept".

Definition hopHeaders : list string :=
  [Connection; KeepAlive; ProxyAuthenticate; ProxyAuthorization; Te; Trailers;
   TransferEncoding; Upgrade; SecWebsocketAccept; SecWebsocketExtensions;
   SecWebsocketKey; SecWebsocketVersion].

Definition WebsocketDialHeaders : list string :=
  [Upgrade; Connection; SecWebsocketKey; SecWebsocketVersion;
   SecWebsocketExtensions; SecWebsocketAccept].

(** ** Header transforms *)

(** [copyHeader(dst, src)].  Go leaves the order of a [range] over a map
    unspecified, so the entries of [src] come in the order the loop visits
    them. *)
Definition copyHeader (dst : Header) (src : list (string * list string)) : Header :=
  foldl (fun d kvv => foldl (fun d' v => Http.Add d' kvv.1 v) d kvv.2) dst src.

(** The loop [for _, h := range names] of [ServeHTTP], used once with
    [WebsocketDialHeaders] on the outbound request and once with [hopHeaders]
    on the backend response: a header whose [Get] is empty is skipped, any
    other is deleted. *)
Definition deleteListed (names : list string) (h : Header) : Header :=
  foldl (fun h' n => if String.eqb (Http.Get h' n) "" then h' else Http.Del h' n)
        h names.

Arguments copyHeader : simpl never.
Arguments deleteListed : simpl never.

Section ConnectionHeaders.

(** [strings.TrimSpace] *)
Variable TrimSpace : string -> string.

Definition removeConnectionHeaders (h : Header) : Header :=
  let c := Http.Get h "Connection" in
  if String.eqb c "" then h
  else foldl (fun h' f =>
                let f' := TrimSpace f in
                if String.eqb f' "" then h' else Http.Del h' f')
             h (Strings.splitByte "," c).

(** Lines 225-233 of [ServeHTTP]: the stripping of the backend response
    headers. *)
Definition stripHopByHop (h : Header) : Header :=
  deleteListed hopHeaders (removeConnectionHeaders h).

End ConnectionHeaders.

(** ** [gorilla/websocket]: close codes, close errors, close payloads *)

Module Websocket.

Local Open Scope Z_scope.

Definition CloseNormalClosure : Z := 1000.
Definition CloseGoingAway : Z := 1001.
Definition CloseProtocolError : Z := 1002.
Definition CloseUnsupportedData : Z := 1003.
Definition CloseNoStatusReceived : Z := 1005.
Definition CloseAbnormalClosure : Z := 1006.
Definition CloseInvalidFramePayloadData : Z := 1007.
Definition ClosePolicyViolation : Z := 1008.
Definition CloseMessageTooBig : Z := 1009.
Definition CloseMandatoryExtension : Z := 1010.
Definition CloseInternalServerErr : Z := 1011.
Definition CloseTLSHandshake : Z := 1015.

Definition TextMessage : Z := 1.
Definition BinaryMessage : Z := 2.
Definition CloseMessage : Z := 8.
Definition PingMessage : Z := 9.
Definition PongMessage : Z := 10.

Record CloseError := mkCloseError { Code : Z; Text : string }.

Definition codeName (code : Z) : string :=
  if code =? CloseNormalClosure then " (normal)"
  else if code =? CloseGoingAway then " (going away)"
  else if code =? CloseProtocolError then " (protocol error)"
  else if code =? CloseUnsupportedData then " (unsupported data)"
  else if code =? CloseNoStatusReceived then " (no status)"
  else if code =? CloseAbnormalClosure then " (abnormal closure)"
  else if code =? CloseInvalidFramePayloadData then " (invalid payload data)"
  else if code =? ClosePolicyViolation then " (policy violation)"
  else if code =? CloseMessageTooBig then " (message too big)"
  else if code =? CloseMandatoryExtension then " (mandatory extension missing)"
  else if code =? CloseInternalServerErr then " (internal server error)"
  else if code =? CloseTLSHandshake then " (TLS handshake error)"
  else "".

(** The [Error] method of a close error. *)
Definition CloseError_Error (e : CloseError) : string :=
  "websocket: close " ++ NilZero.string_of_int (Z.to_int (Code e))
    ++ codeName (Code e)
    ++ (if String.eqb (Text e) "" then "" else ": " ++ Text e).

Definition byteOfZ (z : Z) : Byte.byte :=
  default Byte.x00 (Byte.of_N (Z.to_N (z mod 256))).

(** [FormatCloseMessage]: no payload for "no status received", else the
    code as a big-endian [uint16] followed by the text. *)
Definition FormatCloseMessage (closeCode : Z) (text : string) : list Byte.byte :=
  if closeCode =? CloseNoStatusReceived then []
  else
    let c := closeCode mod 65536 in
    byteOfZ (Z.shiftr c 8) :: byteOfZ (Z.land c 255) :: list_byte_of_string text.

(** What the peer reads back from a close payload: code and text. *)
Definition parseCloseMessage (m : list Byte.byte) : option (Z * string) :=
  match m with
  | hi :: lo :: text =>
      Some (Z.of_N (Byte.to_N hi) * 256 + Z.of_N (Byte.to_N lo),
            string_of_list_byte text)
  | _ => None
  end.

End Websocket.

(** ** Go's [error] values

    The proxy distinguishes errors only by the type assertion to a pointer
    to [websocket.CloseError]. *)

Inductive error : Type :=
| CloseErr (e : Websocket.CloseError)
| OtherErr (description : string).

(** [err.Error()], which is also what [fmt.Sprintf("%v", err)] prints. *)
Definition Error (err : error) : string :=
  match err with
  | CloseErr e => Websocket.CloseError_Error e
  | OtherErr d => d
  end.

(** ** The relay loop: [replicateWebsocketConn] *)

Module Relay.

Local Open Scope Z_scope.

(** What [src.NextReader] meets on the source connection: a data message,
    a ping or a pong (handed to the handlers installed before the loop,
    inside [NextReader]), or a read error. *)
Inductive Frame : Type :=
| Data (msgType : Z) (payload : list Byte.byte)
| Ping (data : string)
| Pong (data : string)
| ReadError (err : error).

Inductive Event : Type :=
| Forward (messageType : Z) (payload : list Byte.byte) (result : option error)
| SendErr (err : error).

(** Whether the goroutine has left the loop or waits in [NextReader]. *)
Inductive Status : Type := Done | Reading.

(** The close payload [m] of lines 296-308; [None] is Go's [nil]. *)
Definition closeMessage (err : error) : option (list Byte.byte) :=
  let m := Some (Websocket.FormatCloseMessage Websocket.CloseNormalClosure (Error err)) in
  match err with
  | CloseErr e =>
      if negb (Websocket.Code e =? Websocket.CloseNoStatusReceived) then
        if negb (Websocket.Code e =? Websocket.CloseAbnormalClosure)
           && negb (Websocket.Code e =? Websocket.CloseTLSHandshake)
        then Some (Websocket.FormatCloseMessage (Websocket.Code e) (Websocket.Text e))
        else None
      else m
  | OtherErr _ => m
  end.

(** Lines 295-314: the error goes to [errc], then [m], if any, is
    forwarded as a close message; the result of that forward is dropped. *)
Definition onReadError (fwd : option error) (err : error) : list Event :=
  SendErr err ::
  match closeMessage err with
  | Some m => [Forward Websocket.CloseMessage m fwd]
  | None => []
  end.

(** The loop, over the frames the source delivers.  [dst k] is the result
    of the [k]-th call of [forward]: [None] for success, else the error of
    [NextWriter], [io.Copy] or [Close]. *)
Fixpoint replicateWebsocketConn (dst : nat -> option error) (k : nat)
    (src : list Frame) : list Event * Status :=
  match src with
  | [] => ([], Reading)
  | Data msgType payload :: src' =>
      match dst k with
      | None =>
          let '(tr, st) := replicateWebsocketConn dst (S k) src' in
          (Forward msgType payload None :: tr, st)
      | Some err => ([Forward msgType payload (Some err); SendErr err], Done)
      end
  | Ping data :: src' =>
      let payload := list_byte_of_string data in
      match dst k with
      | None =>
          let '(tr, st) := replicateWebsocketConn dst (S k) src' in
          (Forward Websocket.PingMessage payload None :: tr, st)
      | Some err =>
          (Forward Websocket.PingMessage payload (Some err)
             :: onReadError (dst (S k)) err, Done)
      end
  | Pong data :: src' =>
      let payload := list_byte_of_string data in
      match dst k with
      | None =>
          let '(tr, st) := replicateWebsocketConn dst (S k) src' in
          (Forward Websocket.PongMessage payload None :: tr, st)
      | Some err =>
          (Forward Websocket.PongMessage payload (Some err)
             :: onReadError (dst (S k)) err, Done)
      end
  | ReadError err :: _ => (onReadError (dst k) err, Done)
  end.

End Relay.

(** ** Requests, URLs and the store they point into *)

Definition loc := positive.

Record URL : Type := mkURL {
  Scheme : string;
  Host : string;
  Path : string;
  RawQuery : string
}.

(** An [http.Request], as far as the proxy reads it.  [URL] and [Header]
    are pointers in Go: [None] is [nil]. *)
Record Request : Type := mkRequest {
  req_Host : string;
  req_URL : option loc;
  req_Header : option loc
}.

Record Response : Type := mkResponse {
  StatusCode : Z;
  Status : string;
  resp_Header : Header
}.

Inductive Conn : Type := underlyingConn | targetConn | hijackedConn.

Inductive Arg : Type :=
| AStr (s : string)
| AInt (n : Z)
| AErr (err : error)
| ATypeOfRw.

Inductive Event : Type :=
| LogPrintf (format : string) (args : list Arg)
| LoggerPrintf (format : string) (args : list Arg)
| DialContext (u : URL) (requestHeader : Header)
| WriteHeader (statusCode : Z)
| Hijack
| RespWrite
| Upgrade_ (responseHeader : Header)
| Close (c : Conn)
| Go (dst src : Conn)
| ErrorHandlerCall (outReq : Request) (err : error)
| HookCall (req : Request) (c : Conn).

Record World : Type := mkWorld {
  headers : gmap loc Header;
  urls : gmap loc URL;
  trace : list Event
}.

(** ** A small monad: state passing with Go's panics *)

Inductive Outcome (A : Type) : Type :=
| Returned (a : A)
| Panicked.

Arguments Returned {A} a.
Arguments Panicked {A}.

Definition M (A : Type) : Type := World -> Outcome A * World.

Definition ret {A : Type} (a : A) : M A := fun w => (Returned a, w).

Definition bind {A B : Type} (m : M A) (f : A -> M B) : M B :=
  fun w =>
    match m w with
    | (Returned a, w') => f a w'
    | (Panicked, w') => (Panicked, w')
    end.

Notation "'let*' x := m 'in' k" := (bind m (fun x => k))
  (at level 10, x name, m at level 100, k at level 200).
Notation "m >> k" := (bind m (fun _ => k))
  (at level 100, k at level 200, right associativity).

Definition panic {A : Type} : M A := fun w => (Panicked, w).

Definition emit (e : Event) : M unit :=
  fun w => (Returned tt, mkWorld (headers w) (urls w) (trace w ++ [e])%list).

(** [defer d] followed by [body]: [d] runs when [body] returns and also
    when it panics. *)
Definition defer {A : Type} (d : M unit) (body : M A) : M A :=
  fun w =>
    match body w with
    | (o, w') =>
        match d w' with
        | (Returned _, w'') => (o, w'')
        | (Panicked, w'') => (Panicked, w'')
        end
    end.

(** [make(http.Header)] *)
Definition makeHeader : M loc :=
  fun w =>
    let l := fresh (dom (headers w)) in
    (Returned l, mkWorld (<[l := ∅]> (headers w)) (urls w) (trace w)).

(** Reading through a header pointer; a [nil] map reads as empty. *)
Definition loadHeader (p : option loc) : M Header :=
  fun w => (Returned (default ∅ (p ≫= fun l => headers w !! l)), w).

(** Deleting through a header pointer; on a [nil] map [delete] does
    nothing. *)
Definition deleteThrough (p : option loc) (f : Header -> Header) : M unit :=
  fun w =>
    match p ≫= (fun l => (fun h => (l, h)) <$> headers w !! l) with
    | Some (l, h) => (Returned tt, mkWorld (<[l := f h]> (headers w)) (urls w) (trace w))
    | None => (Returned tt, w)
    end.

(** Writing an entry through a header pointer; on a [nil] map it panics. *)
Definition writeThrough (p : option loc) (f : Header -> Header) : M unit :=
  fun w =>
    match p ≫= (fun l => (fun h => (l, h)) <$> headers w !! l) with
    | Some (l, h) => (Returned tt, mkWorld (<[l := f h]> (headers w)) (urls w) (trace w))
    | None => (Panicked, w)
    end.

(** Reading and writing through a URL pointer; [nil] panics. *)
Definition loadURL (p : option loc) : M URL :=
  fun w =>
    match p ≫= (fun l => urls w !! l) with
    | Some u => (Returned u, w)
    | None => (Panicked, w)
    end.

Definition storeURL (p : option loc) (u : URL) : M unit :=
  fun w =>
    match p ≫= (fun l => (fun _ => l) <$> urls w !! l) with
    | Some l => (Returned tt, mkWorld (headers w) (<[l := u]> (urls w)) (trace w))
    | None => (Panicked, w)
    end.

(** ** The proxy *)

(** The caller's logger, closed hook and error handler are code outside
    the proxy: a call of one of them is an event of the trace.  [None] is
    Go's [nil]. *)
Inductive logger : Type := CustomLogger.
Inductive closedHook : Type := CustomHook.
Inductive errorHandler : Type := CustomErrorHandler.

Record ReverseProxy : Type := mkReverseProxy {
  Director : Request -> M Request;
  WebsocketConnectionClosedHook : option closedHook;
  ErrorHandler : option errorHandler;
  Logger : option logger
}.

(** The [director] closure of [NewSingleHostReverseProxy]. *)
Definition director (target : URL) (req : Request) : M Request :=
  let targetQuery := RawQuery target in
  let* u := loadURL (req_URL req) in
  let u := mkURL (Scheme target) (Host u) (Path u) (RawQuery u) in
  let u := mkURL (Scheme u) (Host target) (Path u) (RawQuery u) in
  let u := mkURL (Scheme u) (Host u) (singleJoiningSlash (Path target) (Path u))
                 (RawQuery u) in
  let u :=
    if String.eqb targetQuery "" || String.eqb (RawQuery u) ""
    then mkURL (Scheme u) (Host u) (Path u) (targetQuery ++ RawQuery u)
    else mkURL (Scheme u) (Host u) (Path u) (targetQuery ++ "&" ++ RawQuery u) in
  storeURL (req_URL req) u >>
  let* h := loadHeader (req_Header req) in
  (match h !! "User-Agent" with
   | Some _ => ret tt
   | None => writeThrough (req_Header req) (fun h' => Http.Set_ h' "User-Agent" "")
   end) >>
  let u :=
    if String.eqb (Scheme u) "https" then mkURL "wss" (Host u) (Path u) (RawQuery u)
    else if String.eqb (Scheme u) "http" then mkURL "ws" (Host u) (Path u) (RawQuery u)
    else u in
  storeURL (req_URL req) u >>
  ret req.

Definition NewSingleHostReverseProxy (target : URL) : ReverseProxy :=
  mkReverseProxy (director target) None None None.

Definition logf (p : ReverseProxy) (format : string) (args : list Arg) : M unit :=
  (match Logger p with
   | None => emit (LogPrintf format args)
   | Some _ => ret tt
   end) >>
  match Logger p with
  | Some _ => emit (LoggerPrintf format args)
  | None => panic
  end.

Definition defaultErrorHandler (p : ReverseProxy) (req : Request) (err : error) : M unit :=
  logf p "http: proxy error: %v" [AErr err] >>
  emit (WriteHeader Http.StatusBadGateway).

Definition getErrorHandler (p : ReverseProxy) : Request -> error -> M unit :=
  match ErrorHandler p with
  | Some _ => fun req err => emit (ErrorHandlerCall req err)
  | None => defaultErrorHandler p
  end.

(** What lies outside the proxy: the order in which a [range] visits a
    header map, the dialer, the response writer, the upgrader, and which
    relay direction reports first (the [select] over the two channels). *)
Inductive Direction : Type := errClient | errBackend.

Record Env : Type := mkEnv {
  rangeOrder : Header -> list (string * list string);
  dial : URL -> Header -> option Response * option error;
  isHijacker : bool;
  hijack : option error;
  respWrite : option error;
  rwHeader : Header;
  upgrade : Header -> option error;
  firstResult : Direction * error
}.

Section Proxy.

Variable TrimSpace : string -> string.
Variable env : Env.
Variable p : ReverseProxy.

(** Lines 169-183 of [ServeHTTP]: the outbound request. *)
Definition outboundRequest (req : Request) : M Request :=
  let* l := makeHeader in
  let outReq := mkRequest (req_Host req) (req_URL req) (Some l) in
  let* src := loadHeader (req_Header req) in
  writeThrough (req_Header outReq) (fun dst => copyHeader dst (rangeOrder env src)) >>
  let* outReq := Director p outReq in
  deleteThrough (req_Header outReq) (deleteListed WebsocketDialHeaders) >>
  ret outReq.

(** Lines 256-266: the [select] and the logging of the first result. *)
Definition reportFirst : M unit :=
  let '(d, err) := firstResult env in
  let message :=
    match d with
    | errClient => "websocket: Error when copying from backend to client: %v"
    | errBackend => "websocket: Error when copying from client to backend: %v"
    end in
  match err with
  | CloseErr e =>
      if (Websocket.Code e =? Websocket.CloseAbnormalClosure)%Z
      then logf p message [AErr err] else ret tt
  | OtherErr _ => logf p message [AErr err]
  end.

(** The deferred function of lines 242-248. *)
Definition teardown (req : Request) : M unit :=
  emit (Close underlyingConn) >>
  emit (Close targetConn) >>
  match WebsocketConnectionClosedHook p with
  | Some _ => emit (HookCall req underlyingConn)
  | None => ret tt
  end.

(** The arguments of [dialer.DialContext] at line 185: [outReq.URL] and
    [outReq.Header] as they are when the dial starts. *)
Definition dialArguments (outReq : Request) : M (URL * Header) :=
  let* u := loadURL (req_URL outReq) in
  let* h := loadHeader (req_Header outReq) in
  ret (u, h).

Definition ServeHTTP (req : Request) : M unit :=
  let* outReq := outboundRequest req in
  let* uh := dialArguments outReq in
  let u := uh.1 in
  let h := uh.2 in
  emit (DialContext u h) >>
  match dial env u h with
  | (resp, Some err) =>
      match resp with
      | None =>
          logf p "websocket: Error dialing %q: %v" [AStr (req_Host req); AErr err] >>
          getErrorHandler p outReq err
      | Some resp =>
          logf p "websocket: Error dialing %q: %v with resp: %d %s"
            [AStr (req_Host req); AErr err; AInt (StatusCode resp); AStr (Status resp)] >>
          if negb (isHijacker env) then
            logf p "websocket: %s can not be hijack" [ATypeOfRw] >>
            getErrorHandler p outReq err
          else
            emit Hijack >>
            match hijack env with
            | Some errHijack =>
                logf p "websocket: Failed to hijack responseWriter" [] >>
                getErrorHandler p outReq errHijack
            | None =>
                defer (emit (Close hijackedConn))
                  (emit RespWrite >>
                   match respWrite env with
                   | Some errWrite =>
                       logf p "websocket: Failed to forward response" [] >>
                       getErrorHandler p outReq errWrite
                   | None => ret tt
                   end)
            end
      end
  | (None, None) => panic
  | (Some resp, None) =>
      let respHeader := stripHopByHop TrimSpace (resp_Header resp) in
      let respHeader := copyHeader respHeader (rangeOrder env (rwHeader env)) in
      emit (Upgrade_ respHeader) >>
      match upgrade env respHeader with
      | Some err =>
          logf p "websocket: Error while upgrading connection : %v" [AErr err]
      | None =>
          defer (teardown req)
            (emit (Go underlyingConn targetConn) >>
             emit (Go targetConn underlyingConn) >>
             reportFirst)
      end
  end.

End Proxy.

(** ** Vocabulary of the statements *)

(** The slashes at the end of [a] and at the start of [b], and what is left
    of the two strings without them. *)
Fixpoint leadingSlashes (s : string) : nat :=
  match s with
  | String c s' => if Ascii.eqb c "/" then S (leadingSlashes s') else O
  | EmptyString => O
  end.

Fixpoint stripLeadingSlashes (s : string) : string :=
  match s with
  | String c s' => if Ascii.eqb c "/" then stripLeadingSlashes s' else s
  | EmptyString => EmptyString
  end.

Fixpoint trailingSlashes (s : string) : nat :=
  match s with
  | EmptyString => O
  | String c s' =>
      if Ascii.eqb c "/" && (trailingSlashes s' =? String.length s')%nat
      then S (trailingSlashes s') else trailingSlashes s'
  end.

Fixpoint stripTrailingSlashes (s : string) : string :=
  match s with
  | EmptyString => EmptyString
  | String c s' =>
      if Ascii.eqb c "/" && (trailingSlashes s' =? String.length s')%nat
      then EmptyString else String c (stripTrailingSlashes s')
  end.

Fixpoint slashes (k : nat) : string :=
  match k with
  | O => EmptyString
  | S k' => String "/" (slashes k')
  end.

(** [r] is [a] and [b] with exactly [k] slashes between what precedes the
    trailing slashes of [a] and what follows the leading slashes of [b]. *)
Definition joinedBy (k : nat) (a b r : string) : Prop :=
  r = stripTrailingSlashes a ++ slashes k ++ stripLeadingSlashes b.

(** A string without one trailing, respectively leading, slash, if it has
    one. *)
Definition dropTrailingSlash (s : string) : string :=
  if Strings.HasSuffix s "/" then substring 0 (String.length s - 1) s else s.

Definition dropLeadingSlash (s : string) : string :=
  if Strings.HasPrefix s "/" then Strings.sliceFrom 1 s else s.

(** The number of slashes [singleJoiningSlash] leaves at the join, from the
    numbers of trailing slashes of [a] and leading slashes of [b]. *)
Definition slashesAtJoin (n m : nat) : nat :=
  match n, m with
  | O, O => 1
  | S n', S m' => S (n' + m')
  | _, _ => n + m
  end.

(** What the Director of [NewSingleHostReverseProxy target] makes of the
    URL [u]. *)
Definition rewriteURL (target u : URL) : URL :=
  mkURL
    (if String.eqb (Scheme target) "https" then "wss"
     else if String.eqb (Scheme target) "http" then "ws"
     else Scheme target)
    (Host target)
    (singleJoiningSlash (Path target) (Path u))
    (if String.eqb (RawQuery target) "" || String.eqb (RawQuery u) ""
     then RawQuery target ++ RawQuery u
     else RawQuery target ++ "&" ++ RawQuery u).

(** The header set behind a header pointer. *)
Definition headerAt (w : World) (p : option loc) : option Header :=
  p ≫= fun l => headers w !! l.

(** The events a computation adds to the trace of [w]. *)
Definition newEvents {A : Type} (m : M A) (w : World) : list Event :=
  drop (length (trace w)) (trace (m w).2).

(** The error [err] is logged by one of the events [evs]. *)
Definition logsError (evs : list Event) (err : error) : Prop :=
  exists format,
    In (LogPrintf format [AErr err]) evs \/ In (LoggerPrintf format [AErr err]) evs.

(** A header is present when the header set has an entry under its
    name. *)
Definition present (h : Header) (name : string) : Prop := is_Some (h !! name).

(** ** Sample values *)

Definition sampleTarget : URL := mkURL "https" "backend:8443" "/base/" "t=1".

Definition sampleURL : URL := mkURL "http" "proxy.local" "/ws" "q=2".

(** A store with one URL and one header set, both at location 1, and the
    request that points at them. *)
Definition sampleWorld (h : Header) : World :=
  mkWorld {[1%positive := h]} {[1%positive := sampleURL]} [].

Definition sampleRequest : Request :=
  mkRequest "proxy.local" (Some 1%positive) (Some 1%positive).

(** An environment whose dialer and upgrader answer as given, and whose
    response writer has no headers and can be hijacked. *)
Definition sampleEnv (dialed : option Response * option error)
    (upgraded : option error) (first : Direction * error) : Env :=
  mkEnv map_to_list (fun _ _ => dialed) true None None ∅ (fun _ => upgraded) first.

Definition sampleResponse : Response :=
  mkResponse 101 "101 Switching Protocols" {[Upgrade := ["websocket"]]}.

Definition refusedEnv : Env :=
  sampleEnv (None, Some (OtherErr "dial tcp: connection refused")) None
            (errClient, OtherErr "unexpected EOF").

(** A single-host proxy with a logger and a closed hook configured. *)
Definition loggingProxy : ReverseProxy :=
  mkReverseProxy (director sampleTarget) (Some CustomHook) None (Some CustomLogger).

Definition upgradeFailedEnv : Env :=
  sampleEnv (Some sampleResponse, None)
            (Some (OtherErr "websocket: the client is not using the websocket protocol"))
            (errClient, OtherErr "unexpected EOF").

Definition closedEnv (code : Z) (text : string) : Env :=
  sampleEnv (Some sampleResponse, None) None
            (errBackend, CloseErr (Websocket.mkCloseError code text)).

(** ** The close translation, in the words of the specification *)

(** The code and text of the close frame forwarded for a read error, if
    one is forwarded: "normal closure" with the error's description for an
    error that is not a close error and for "no status received"; nothing for
    "abnormal closure" and "TLS handshake failure"; the error's own code and
    text otherwise. *)
Definition closeTranslation (err : error) : option (Z * string) :=
  match err with
  | OtherErr _ => Some (Websocket.CloseNormalClosure, Error err)
  | CloseErr e =>
      if (Websocket.Code e =? Websocket.CloseNoStatusReceived)%Z
      then Some (Websocket.CloseNormalClosure, Error err)
      else if (Websocket.Code e =? Websocket.CloseAbnormalClosure)%Z
              || (Websocket.Code e =? Websocket.CloseTLSHandshake)%Z
      then None
      else Some (Websocket.Code e, Websocket.Text e)
  end.

Definition isReadError (f : Relay.Frame) : bool :=
  match f with
  | Relay.ReadError _ => true
  | _ => false
  end.

(** The event of a frame that is forwarded with success. *)
Definition forwardedAs (f : Relay.Frame) : list Relay.Event :=
  match f with
  | Relay.Data msgType payload => [Relay.Forward msgType payload None]
  | Relay.Ping data =>
      [Relay.Forward Websocket.PingMessage (list_byte_of_string data) None]
  | Relay.Pong data =>
      [Relay.Forward Websocket.PongMessage (list_byte_of_string data) None]
  | Relay.ReadError _ => []
  end.

(** The close frame forwarded after the error was sent, if any. *)
Definition closeForward (fwd : option error) (err : error) : list Relay.Event :=
  match closeTranslation err with
  | Some (code, text) =>
      [Relay.Forward Websocket.CloseMessage (Websocket.FormatCloseMessage code text) fwd]
  | None => []
  end.

(** One turn of the loop of [deleteListed]. *)
Definition deleteStep (h : Header) (n : string) : Header :=
  if String.eqb (Http.Get h n) "" then h else Http.Del h n.

(** [m] changes no header set but the one at [l]. *)
Definition touchesOnly {A : Type} (l : loc) (m : M A) : Prop :=
  forall w k, k <> l -> headers (m w).2 !! k = headers w !! k.

(** The headers [ServeHTTP] hands to the upgrader for the response [resp]
    of the backend. *)
Definition upgradeHeader (TrimSpace : string -> string) (env : Env)
    (resp : Response) : Header :=
  copyHeader (stripHopByHop TrimSpace (resp_Header resp))
             (rangeOrder env (rwHeader env)).

(** Every entry of the header set is stored under a canonical key. *)
Definition canonicalKeys (h : Header) : Prop :=
  forall k, is_Some (h !! k) -> Textproto.CanonicalMIMEHeaderKey k = k.

(** No entry of [h] stored under any casing of the name [n] has a first
    value other than the empty string. *)
Definition noValueUnder (h : Header) (n : string) : Prop :=
  forall k v vs,
    Textproto.CanonicalMIMEHeaderKey k = n -> h !! k = Some (v :: vs) -> v = "".

(** ** Vocabulary for the header transforms *)

(** The values that the entries [src], in the order a [range] visits them,
    hold under keys whose canonical form is [k]. *)
Definition valuesUnder (k : string) (src : list (string * list string)) : list string :=
  concat (snd <$> filter (fun kv => Textproto.CanonicalMIMEHeaderKey kv.1 = k) src).

(** The header names a [Connection] value [c] lists: the trimmed,
    non-empty fields between its commas. *)
Definition connectionFields (TrimSpace : string -> string) (c : string) : list string :=
  filter (fun f => f <> "") (TrimSpace <$> Strings.splitByte "," c).

(** The first value stored under the key [k], the empty string if there
    is none: what [Get] reads for a name whose canonical form is [k]. *)
Definition firstValue (h : Header) (k : string) : string :=
  match h !! k with
  | Some (v :: _) => v
  | _ => ""
  end.

(** ** Vocabulary for [ServeHTTP] *)

(** What the error handler of a proxy with a logger adds to the trace: the
    call of the configured handler, or the log line and the 502 of the
    default one. *)
Definition handlerEvents (p : ReverseProxy) (outReq : Request) (err : error) : list Event :=
  match ErrorHandler p with
  | Some _ => [ErrorHandlerCall outReq err]
  | None => [LoggerPrintf "http: proxy error: %v" [AErr err];
             WriteHeader Http.StatusBadGateway]
  end.

(** The world [w] with the events [evs] added to its trace. *)
Definition withEvents (w : World) (evs : list Event) : World :=
  mkWorld (headers w) (urls w) (trace w ++ evs).

(** The call of the closed hook, if one is configured. *)
Definition hookEvents (p : ReverseProxy) (req : Request) : list Event :=
  match WebsocketConnectionClosedHook p with
  | Some _ => [HookCall req underlyingConn]
  | None => []
  end.

(** A backend that declines the upgrade with a response, and a response
    writer that is a hijacker or not, whose hijack and write fail or not. *)
Definition sampleRefusal : Response := mkResponse 403 "403 Forbidden" ∅.

Definition declinedEnv (hijacker : bool) (hijackErr writeErr : option error) : Env :=
  mkEnv map_to_list
        (fun _ _ => (Some sampleRefusal, Some (OtherErr "websocket: bad handshake")))
        hijacker hijackErr writeErr ∅ (fun _ => None)
        (errClient, OtherErr "unexpected EOF").

(** ** Vocabulary for the relay loop *)

Definition isSendErr (ev : Relay.Event) : bool :=
  match ev with
  | Relay.SendErr _ => true
  | Relay.Forward _ _ _ => false
  end.

(** An environment whose response writer already has the headers [rw]. *)
Definition writerEnv (rw : Header) : Env :=
  mkEnv map_to_list (fun _ _ => (Some sampleResponse, None)) true None None rw
        (fun _ => None) (errClient, OtherErr "unexpected EOF").

(** [m] changes neither a header set nor a URL of the store. *)
Definition keepsStore {A : Type} (m : M A) : Prop :=
  forall w, headers (m w).2 = headers w /\ urls (m w).2 = urls w.

(** * Theorems *)

(** ** Strings *)

Lemma string_app_cons (c : ascii) (s t : string) : String c s ++ t = String c (s ++ t).
Proof. reflexivity. Qed.

Lemma string_app_assoc (s1 s2 s3 : string) : (s1 ++ s2) ++ s3 = s1 ++ (s2 ++ s3).
Proof.
  induction s1 as [|c s1 IH]; [reflexivity|].
  rewrite !string_app_cons. by rewrite IH.
Qed.

Lemma string_app_nil_r (s : string) : s ++ "" = s.
Proof.
  induction s as [|c s IH]; [reflexivity|].
  rewrite string_app_cons. by rewrite IH.
Qed.

Lemma slashes_add (n m : nat) : slashes (n + m) = slashes n ++ slashes m.
Proof.
  induction n as [|n IH]; [reflexivity|].
  simpl. rewrite string_app_cons. by rewrite IH.
Qed.

Lemma slashes_length (n : nat) : String.length (slashes n) = n.
Proof. induction n; simpl; congruence. Qed.

Lemma trailingSlashes_le (s : string) : trailingSlashes s <= String.length s.
Proof.
  induction s as [|c s IH]; simpl; [lia|].
  destruct (Ascii.eqb c "/" && (trailingSlashes s =? String.length s)%nat); lia.
Qed.

Lemma leading_split (s : string) :
  s = slashes (leadingSlashes s) ++ stripLeadingSlashes s.
Proof.
  induction s as [|c s IH]; [reflexivity|].
  simpl. destruct (Ascii.eqb_spec c "/") as [->|Hc]; [|reflexivity].
  simpl. rewrite string_app_cons. by rewrite <- IH.
Qed.

Lemma all_slashes (s : string) :
  trailingSlashes s = String.length s -> s = slashes (String.length s).
Proof.
  induction s as [|c s IH]; [reflexivity|].
  simpl. pose proof (trailingSlashes_le s) as Hle.
  destruct (Ascii.eqb_spec c "/") as [->|Hc]; simpl.
  - destruct (Nat.eqb_spec (trailingSlashes s) (String.length s)) as [He|He].
    + intros _. by rewrite <- IH.
    + lia.
  - lia.
Qed.

Lemma slashes_snoc (n : nat) : String "/" (slashes n) = slashes n ++ "/".
Proof.
  induction n as [|n IH]; [reflexivity|].
  simpl. rewrite string_app_cons. by rewrite <- IH.
Qed.

Lemma trailing_split (s : string) :
  s = stripTrailingSlashes s ++ slashes (trailingSlashes s).
Proof.
  induction s as [|c s IH]; [reflexivity|].
  simpl. destruct (Ascii.eqb_spec c "/") as [->|Hc]; simpl.
  - destruct (Nat.eqb_spec (trailingSlashes s) (String.length s)) as [He|He].
    + rewrite He. change (String "/" s = String "/" (slashes (String.length s))).
      f_equal. by apply all_slashes.
    + rewrite string_app_cons. by rewrite <- IH.
  - rewrite string_app_cons. by rewrite <- IH.
Qed.

Lemma HasPrefix_slash (s : string) :
  Strings.HasPrefix s "/" = (0 <? leadingSlashes s)%nat.
Proof.
  destruct s as [|c s]; [reflexivity|].
  unfold Strings.HasPrefix. simpl.
  destruct (Ascii.eqb_spec c "/") as [->|Hc].
  - by destruct s.
  - destruct s; simpl; destruct (Ascii.eqb_spec c "/"); done.
Qed.

Lemma sliceFrom_length_app (s t : string) :
  Strings.sliceFrom (String.length s) (s ++ t) = t.
Proof. induction s as [|c s IH]; [reflexivity|]. by rewrite string_app_cons. Qed.

Lemma string_length_app (s t : string) :
  String.length (s ++ t) = String.length s + String.length t.
Proof.
  induction s as [|c s IH]; [reflexivity|].
  rewrite string_app_cons. simpl. by rewrite IH.
Qed.

Lemma HasSuffix_cons (c : ascii) (s : string) :
  Strings.HasSuffix (String c s) "/" =
  match s with
  | EmptyString => Ascii.eqb c "/"
  | _ => Strings.HasSuffix s "/"
  end.
Proof.
  unfold Strings.HasSuffix. destruct s as [|d s].
  - simpl. by destruct (Ascii.eqb c "/").
  - simpl. by rewrite !Nat.sub_0_r.
Qed.

Lemma HasSuffix_slash (s : string) :
  Strings.HasSuffix s "/" = (0 <? trailingSlashes s)%nat.
Proof.
  induction s as [|c s IH]; [reflexivity|].
  rewrite HasSuffix_cons. destruct s as [|d s].
  - simpl. by destruct (Ascii.eqb c "/").
  - rewrite IH. remember (String d s) as s' eqn:Hs'.
    change (trailingSlashes (String c s')) with
      (if Ascii.eqb c "/" && (trailingSlashes s' =? String.length s')%nat
       then S (trailingSlashes s') else trailingSlashes s').
    destruct (Ascii.eqb c "/"); [|reflexivity].
    destruct (Nat.eqb_spec (trailingSlashes s') (String.length s')) as [He|He];
      [|reflexivity].
    simpl. rewrite He, Hs'. reflexivity.
Qed.

Lemma sliceFrom_one_slashes (n : nat) (t : string) :
  Strings.sliceFrom 1 (slashes (S n) ++ t) = slashes n ++ t.
Proof. reflexivity. Qed.

Lemma singleJoiningSlash_joinedBy (a b : string) :
  joinedBy (slashesAtJoin (trailingSlashes a) (leadingSlashes b)) a b
           (singleJoiningSlash a b).
Proof.
  unfold joinedBy, singleJoiningSlash.
  rewrite HasSuffix_slash, HasPrefix_slash.
  pose proof (trailing_split a) as Ha. pose proof (leading_split b) as Hb.
  set (n := trailingSlashes a) in *. set (x := stripTrailingSlashes a) in *.
  set (m := leadingSlashes b) in *. set (y := stripLeadingSlashes b) in *.
  clearbody n x m y. subst a b.
  destruct n as [|n], m as [|m]; unfold Nat.ltb;
    cbn [Nat.leb andb negb slashesAtJoin].
  - by rewrite !string_app_nil_r.
  - by rewrite !string_app_nil_r.
  - rewrite string_app_assoc. f_equal. rewrite Nat.add_0_r. reflexivity.
  - rewrite sliceFrom_one_slashes, string_app_assoc. f_equal.
    rewrite <- string_app_assoc. f_equal.
    symmetry. apply (slashes_add (S n) m).
Qed.

Lemma HasSuffix_slash_split (a : string) :
  Strings.HasSuffix a "/" = true ->
  a = substring 0 (String.length a - 1) a ++ "/".
Proof.
  induction a as [|c a IH]; [discriminate|].
  rewrite HasSuffix_cons. destruct a as [|d a].
  - intros ->%Ascii.eqb_eq. reflexivity.
  - intros H. specialize (IH H). remember (String d a) as a' eqn:Ha'.
    replace (String.length (String c a') - 1) with (S (String.length a' - 1))
      by (rewrite Ha'; simpl; lia).
    simpl. rewrite string_app_cons. by rewrite <- IH.
Qed.

Lemma HasPrefix_slash_split (b : string) :
  Strings.HasPrefix b "/" = true -> b = "/" ++ Strings.sliceFrom 1 b.
Proof.
  rewrite HasPrefix_slash. destruct b as [|c b]; [discriminate|].
  simpl. destruct (Ascii.eqb_spec c "/") as [->|Hc]; [reflexivity|discriminate].
Qed.

Lemma singleJoiningSlash_drop (a b : string) :
  singleJoiningSlash a b = dropTrailingSlash a ++ "/" ++ dropLeadingSlash b.
Proof.
  unfold singleJoiningSlash, dropTrailingSlash, dropLeadingSlash.
  destruct (Strings.HasSuffix a "/") eqn:Ha, (Strings.HasPrefix b "/") eqn:Hb;
    cbn [andb negb].
  - rewrite (HasSuffix_slash_split a Ha) at 1. by rewrite string_app_assoc.
  - rewrite (HasSuffix_slash_split a Ha) at 1. by rewrite string_app_assoc.
  - by rewrite (HasPrefix_slash_split b Hb) at 1.
  - reflexivity.
Qed.

(** C6 (as amended).  [singleJoiningSlash a b] is [a] without one trailing
    slash, one slash, and [b] without one leading slash.  With [n] slashes
    at the end of [a] and [m] at the start of [b], the result has
    [slashesAtJoin n m] slashes at the join: one for [n, m <= 1], and the
    four joins of "/a" or "/a/" with "b" or "/b" are "/a/b". *)
Theorem singleJoiningSlash_one_slash (a b : string) :
  singleJoiningSlash a b = dropTrailingSlash a ++ "/" ++ dropLeadingSlash b /\
  joinedBy (slashesAtJoin (trailingSlashes a) (leadingSlashes b)) a b
           (singleJoiningSlash a b) /\
  (trailingSlashes a <= 1 -> leadingSlashes b <= 1 ->
   joinedBy 1 a b (singleJoiningSlash a b)) /\
  singleJoiningSlash "/a/" "/b" = "/a/b" /\
  singleJoiningSlash "/a" "b" = "/a/b" /\
  singleJoiningSlash "/a/" "b" = "/a/b" /\
  singleJoiningSlash "/a" "/b" = "/a/b".
Proof.
  split; [apply singleJoiningSlash_drop|].
  split; [apply singleJoiningSlash_joinedBy|].
  split; [|repeat split; reflexivity].
  intros Hn Hm. pose proof (singleJoiningSlash_joinedBy a b) as H.
  replace (slashesAtJoin (trailingSlashes a) (leadingSlashes b)) with 1 in H;
    [exact H|].
  destruct (trailingSlashes a) as [|[|n]], (leadingSlashes b) as [|[|m]];
    simpl; lia.
Qed.

Lemma singleJoiningSlash_one_slash_witness :
  trailingSlashes "/a/" <= 1 /\ leadingSlashes "/b" <= 1 /\
  joinedBy 1 "/a/" "/b" (singleJoiningSlash "/a/" "/b").
Proof.
  split; [simpl; lia|]. split; [simpl; lia|].
  apply (singleJoiningSlash_one_slash "/a/" "/b"); simpl; lia.
Defined.

(** C6 (as stated) fails: [a] ending in two slashes keeps both. *)
Lemma singleJoiningSlash_two_slashes :
  singleJoiningSlash "a//" "b" = "a//b" /\
  ~ joinedBy 1 "a//" "b" (singleJoiningSlash "a//" "b").
Proof. split; [reflexivity|]. unfold joinedBy. vm_compute. discriminate. Qed.

(** ** Header sets *)

Lemma Get_Del_same (h : Header) (n : string) : Http.Get (Http.Del h n) n = "".
Proof. unfold Http.Get, Http.Del. by rewrite lookup_delete_eq. Qed.

Lemma Get_Del_empty (h : Header) (k n : string) :
  Http.Get h n = "" -> Http.Get (Http.Del h k) n = "".
Proof.
  unfold Http.Get, Http.Del. intros H.
  destruct (decide (Textproto.CanonicalMIMEHeaderKey k = Textproto.CanonicalMIMEHeaderKey n))
    as [->|Hne].
  - by rewrite lookup_delete_eq.
  - by rewrite lookup_delete_ne.
Qed.

Lemma deleteListed_cons (n : string) (names : list string) (h : Header) :
  deleteListed (n :: names) h = deleteListed names (deleteStep h n).
Proof. reflexivity. Qed.

Lemma deleteStep_Get_same (h : Header) (n : string) : Http.Get (deleteStep h n) n = "".
Proof.
  unfold deleteStep. destruct (String.eqb_spec (Http.Get h n) "") as [He|He];
    [exact He | apply Get_Del_same].
Qed.

Lemma deleteStep_Get_empty (h : Header) (k n : string) :
  Http.Get h n = "" -> Http.Get (deleteStep h k) n = "".
Proof.
  intros H. unfold deleteStep. destruct (String.eqb (Http.Get h k) "");
    [exact H | by apply Get_Del_empty].
Qed.

Lemma deleteListed_Get_empty (names : list string) (h : Header) (n : string) :
  Http.Get h n = "" -> Http.Get (deleteListed names h) n = "".
Proof.
  revert h. induction names as [|k names IH]; intros h H; [exact H|].
  rewrite deleteListed_cons. apply IH. by apply deleteStep_Get_empty.
Qed.

(** After the loop, [Get] is empty for every listed name. *)
Lemma deleteListed_Get (names : list string) (h : Header) (n : string) :
  In n names -> Http.Get (deleteListed names h) n = "".
Proof.
  revert h. induction names as [|k names IH]; intros h Hin; [destruct Hin|].
  rewrite deleteListed_cons. destruct Hin as [->|Hin].
  - apply deleteListed_Get_empty, deleteStep_Get_same.
  - by apply IH.
Qed.

(** The loop does nothing where [Get] is already empty for every name. *)
Lemma deleteListed_id (names : list string) (h : Header) :
  (forall n, In n names -> Http.Get h n = "") -> deleteListed names h = h.
Proof.
  induction names as [|k names IH]; intros H; [reflexivity|].
  rewrite deleteListed_cons. unfold deleteStep.
  rewrite (H k (or_introl eq_refl)). simpl. apply IH.
  intros n Hn. apply H. by right.
Qed.

(** The loops only delete: an entry of the result is an entry of the
    argument. *)
Lemma Del_lookup (h : Header) (k name : string) :
  Http.Del h k !! name = None \/ Http.Del h k !! name = h !! name.
Proof.
  unfold Http.Del.
  destruct (decide (Textproto.CanonicalMIMEHeaderKey k = name)) as [->|Hne].
  - left. apply lookup_delete_eq.
  - right. by apply lookup_delete_ne.
Qed.

Lemma deleteListed_lookup (names : list string) (h : Header) (name : string) :
  deleteListed names h !! name = None \/ deleteListed names h !! name = h !! name.
Proof.
  revert h. induction names as [|k names IH]; intros h; [by right|].
  rewrite deleteListed_cons.
  destruct (IH (deleteStep h k)) as [He|He]; [by left|].
  rewrite He. unfold deleteStep.
  destruct (String.eqb (Http.Get h k) ""); [by right | apply Del_lookup].
Qed.

Section ConnectionHeaderLemmas.

Variable TrimSpace : string -> string.

Lemma removeConnectionHeaders_id (h : Header) :
  Http.Get h "Connection" = "" -> removeConnectionHeaders TrimSpace h = h.
Proof. intros H. unfold removeConnectionHeaders. by rewrite H. Qed.

Lemma removeConnectionHeaders_lookup (h : Header) (name : string) :
  removeConnectionHeaders TrimSpace h !! name = None \/
  removeConnectionHeaders TrimSpace h !! name = h !! name.
Proof.
  unfold removeConnectionHeaders.
  destruct (String.eqb (Http.Get h "Connection") ""); [by right|].
  set (step := fun (h' : Header) (f : string) =>
                 let f' := TrimSpace f in
                 if String.eqb f' "" then h' else Http.Del h' f').
  generalize (Strings.splitByte "," (Http.Get h "Connection")). intros fs.
  revert h. induction fs as [|f fs IH]; intros h; [by right|].
  change (foldl step h (f :: fs)) with (foldl step (step h f) fs).
  destruct (IH (step h f)) as [He|He]; [by left|].
  rewrite He. unfold step. cbv zeta.
  destruct (String.eqb (TrimSpace f) ""); [by right | apply Del_lookup].
Qed.

Lemma stripHopByHop_Get (h : Header) (n : string) :
  In n hopHeaders -> Http.Get (stripHopByHop TrimSpace h) n = "".
Proof. intros Hn. unfold stripHopByHop. by apply deleteListed_Get. Qed.

Lemma stripHopByHop_lookup (h : Header) (name : string) :
  stripHopByHop TrimSpace h !! name = None \/
  stripHopByHop TrimSpace h !! name = h !! name.
Proof.
  unfold stripHopByHop.
  destruct (deleteListed_lookup hopHeaders (removeConnectionHeaders TrimSpace h) name)
    as [He|He]; [by left|].
  rewrite He. apply removeConnectionHeaders_lookup.
Qed.

End ConnectionHeaderLemmas.

Lemma hopHeaders_canonical :
  Forall (fun n => Textproto.CanonicalMIMEHeaderKey n = n) hopHeaders.
Proof. repeat constructor. Qed.


(** For a canonical name, an empty [Get] says that the entry is missing, has
    no value, or has the empty string as its first value. *)
Lemma Get_empty_lookup (h : Header) (n : string) :
  Textproto.CanonicalMIMEHeaderKey n = n ->
  Http.Get h n = "" ->
  h !! n = None \/ h !! n = Some [] \/ exists vs, h !! n = Some ("" :: vs).
Proof.
  unfold Http.Get. intros ->. destruct (h !! n) as [[|v vs]|]; intros H; subst; eauto.
Qed.

(** ** Canonical header keys *)











Lemma canonicalKeys_deleted (h h' : Header) :
  (forall k, h' !! k = None \/ h' !! k = h !! k) ->
  canonicalKeys h -> canonicalKeys h'.
Proof.
  intros Hsub Hh k [x Hx]. apply Hh.
  destruct (Hsub k) as [He|He]; [congruence|]. rewrite <- He. by exists x.
Qed.

(** Under canonical keys an empty [Get] covers every casing of the name. *)
Lemma noValueUnder_canonical (h : Header) (n : string) :
  canonicalKeys h -> Http.Get h n = "" ->
  Textproto.CanonicalMIMEHeaderKey n = n -> noValueUnder h n.
Proof.
  intros Hh HGet Hn k v vs Hk Hlook.
  assert (k = n) as ->.
  { rewrite <- Hk. symmetry. apply Hh. by eexists. }
  unfold Http.Get in HGet. by rewrite Hn, Hlook in HGet.
Qed.

(** ** The deleting loops, entry by entry *)


Lemma Get_firstValue (h : Header) (n : string) :
  Http.Get h n = firstValue h (Textproto.CanonicalMIMEHeaderKey n).
Proof. reflexivity. Qed.

Lemma firstValue_Del_ne (h : Header) (n k : string) :
  Textproto.CanonicalMIMEHeaderKey n <> k ->
  firstValue (Http.Del h n) k = firstValue h k.
Proof. intros Hne. unfold firstValue, Http.Del. by rewrite lookup_delete_ne. Qed.

Lemma deleteListed_exact (names : list string) (h : Header) (k : string) :
  deleteListed names h !! k
  = if decide (k ∈ Textproto.CanonicalMIMEHeaderKey <$> names /\ firstValue h k <> "")
    then None else h !! k.
Proof.
  revert h. induction names as [|n names IH]; intros h.
  - rewrite decide_False; [reflexivity|]. intros [Hin _]. by apply elem_of_nil in Hin.
  - rewrite deleteListed_cons, IH. unfold deleteStep. rewrite Get_firstValue.
    cbn [fmap list_fmap].
    destruct (decide (Textproto.CanonicalMIMEHeaderKey n = k)) as [Hk|Hk].
    + rewrite Hk. destruct (String.eqb_spec (firstValue h k) "") as [He|He].
      * rewrite He. rewrite !decide_False by (intros [_ ?]; done). reflexivity.
      * assert (firstValue (Http.Del h n) k = "") as Hdel.
        { unfold firstValue, Http.Del. by rewrite Hk, lookup_delete_eq. }
        rewrite Hdel. rewrite decide_False by (intros [_ ?]; done).
        rewrite decide_True by (split; [by left | done]).
        unfold Http.Del. by rewrite Hk, lookup_delete_eq.
    + assert (firstValue (if String.eqb (firstValue h (Textproto.CanonicalMIMEHeaderKey n)) ""
                          then h else Http.Del h n) k = firstValue h k) as Hfv.
      { destruct (String.eqb _ ""); [reflexivity | by apply firstValue_Del_ne]. }
      assert ((if String.eqb (firstValue h (Textproto.CanonicalMIMEHeaderKey n)) ""
               then h else Http.Del h n) !! k = h !! k) as Hlk.
      { destruct (String.eqb _ ""); [reflexivity|].
        unfold Http.Del. by rewrite lookup_delete_ne. }
      rewrite Hfv, Hlk.
      destruct (decide (k ∈ Textproto.CanonicalMIMEHeaderKey <$> names /\ firstValue h k <> ""))
        as [[Hin Hne]|Hno].
      * rewrite decide_True; [reflexivity|]. split; [by right | done].
      * rewrite decide_False; [reflexivity|].
        intros [Hin Hne]. apply Hno. split; [|done].
        apply elem_of_cons in Hin as [Heq|Hin]; [congruence | done].
Qed.

Lemma Del_all_lookup (fs : list string) :
  forall (h : Header) (k : string),
    foldl Http.Del h fs !! k
    = if decide (k ∈ Textproto.CanonicalMIMEHeaderKey <$> fs) then None else h !! k.
Proof.
  induction fs as [|f fs IH]; intros h k.
  - rewrite decide_False; [reflexivity|]. apply not_elem_of_nil.
  - cbn [foldl fmap list_fmap]. rewrite IH. unfold Http.Del.
    destruct (decide (k ∈ Textproto.CanonicalMIMEHeaderKey <$> fs)) as [Hin|Hnin].
    + rewrite decide_True; [reflexivity | by right].
    + destruct (decide (Textproto.CanonicalMIMEHeaderKey f = k)) as [<-|Hk].
      * rewrite decide_True by left. by rewrite lookup_delete_eq.
      * rewrite decide_False.
        -- by rewrite lookup_delete_ne.
        -- intros Hin. apply elem_of_cons in Hin as [Heq|Hin]; [congruence | done].
Qed.

Section ConnectionFields.

Variable TrimSpace : string -> string.

Lemma removeConnectionHeaders_fields (h : Header) :
  removeConnectionHeaders TrimSpace h
  = if String.eqb (Http.Get h "Connection") "" then h
    else foldl Http.Del h (connectionFields TrimSpace (Http.Get h "Connection")).
Proof.
  unfold removeConnectionHeaders, connectionFields.
  destruct (String.eqb (Http.Get h "Connection") ""); [reflexivity|].
  generalize (Strings.splitByte "," (Http.Get h "Connection")). intros fs.
  revert h. induction fs as [|f fs IH]; intros h; [reflexivity|].
  cbn [foldl fmap list_fmap]. cbv zeta. rewrite IH, filter_cons.
  destruct (String.eqb_spec (TrimSpace f) "") as [He|He].
  - by rewrite decide_False by (intros Hne; by apply Hne).
  - by rewrite decide_True.
Qed.

Lemma removeConnectionHeaders_exact (h : Header) (k : string) :
  removeConnectionHeaders TrimSpace h !! k
  = if decide (Http.Get h "Connection" <> "" /\
               k ∈ Textproto.CanonicalMIMEHeaderKey
                     <$> connectionFields TrimSpace (Http.Get h "Connection"))
    then None else h !! k.
Proof.
  rewrite removeConnectionHeaders_fields.
  destruct (String.eqb_spec (Http.Get h "Connection") "") as [He|He].
  - rewrite decide_False; [reflexivity|]. by intros [Hne _].
  - rewrite Del_all_lookup.
    destruct (decide (k ∈ Textproto.CanonicalMIMEHeaderKey
                          <$> connectionFields TrimSpace (Http.Get h "Connection")))
      as [Hin|Hnin].
    + by rewrite decide_True.
    + rewrite decide_False; [reflexivity|]. by intros [_ Hin].
Qed.

End ConnectionFields.

Lemma hopHeaders_canonical_map :
  Textproto.CanonicalMIMEHeaderKey <$> hopHeaders = hopHeaders.
Proof. reflexivity. Qed.

Lemma WebsocketDialHeaders_canonical_map :
  Textproto.CanonicalMIMEHeaderKey <$> WebsocketDialHeaders = WebsocketDialHeaders.
Proof. reflexivity. Qed.

(** The entries of the stripped response headers: what the [Connection]
    value names is gone, a hop-by-hop entry whose first value is not the
    empty string is gone, every other entry is as it was. *)
Lemma stripHopByHop_entries (TrimSpace : string -> string) (h : Header) (k : string) :
  stripHopByHop TrimSpace h !! k
  = if decide (Http.Get h "Connection" <> "" /\
               k ∈ Textproto.CanonicalMIMEHeaderKey
                     <$> connectionFields TrimSpace (Http.Get h "Connection"))
    then None
    else if decide (k ∈ hopHeaders /\ firstValue h k <> "")
    then None
    else h !! k.
Proof.
  unfold stripHopByHop. rewrite deleteListed_exact, hopHeaders_canonical_map.
  pose proof (removeConnectionHeaders_exact TrimSpace h k) as Hrm.
  destruct (decide (Http.Get h "Connection" <> "" /\ _)) as [Hnamed|Hnot].
  - assert (firstValue (removeConnectionHeaders TrimSpace h) k = "") as Hfv
      by (unfold firstValue; by rewrite Hrm).
    rewrite Hrm. by destruct (decide (k ∈ hopHeaders /\ _)).
  - assert (firstValue (removeConnectionHeaders TrimSpace h) k = firstValue h k) as Hfv
      by (unfold firstValue; by rewrite Hrm).
    rewrite Hrm.
    destruct (decide (k ∈ hopHeaders /\ firstValue (removeConnectionHeaders TrimSpace h) k <> ""))
      as [[Hin Hne]|Hno].
    + rewrite decide_True; [reflexivity|]. split; [done | by rewrite <- Hfv].
    + rewrite decide_False; [reflexivity|].
      intros [Hin Hne]. apply Hno. split; [done | by rewrite Hfv].
Qed.

(** ** The stripping of the backend response headers *)

(** C5 (as amended).  After [removeConnectionHeaders] and the pass over
    [hopHeaders], [Get] is empty for every hop-by-hop name: the entry under
    that name is missing, has no value, or has the empty string as its first
    value; an entry whose first value is not empty is gone.  Where the keys
    of the response headers are canonical, this covers every casing of the
    name.  An entry whose first value is the empty string, or that has no
    value, is gone when the [Connection] value names it and is left as it was
    when not. *)
Theorem stripHopByHop_hop_headers (TrimSpace : string -> string) (h : Header) (n : string) :
  In n hopHeaders ->
  Http.Get (stripHopByHop TrimSpace h) n = "" /\
  (stripHopByHop TrimSpace h !! n = None \/
   stripHopByHop TrimSpace h !! n = Some [] \/
   exists vs, stripHopByHop TrimSpace h !! n = Some ("" :: vs)) /\
  (forall v vs, h !! n = Some (v :: vs) -> v <> "" ->
                ~ present (stripHopByHop TrimSpace h) n) /\
  (canonicalKeys h -> noValueUnder (stripHopByHop TrimSpace h) n) /\
  (firstValue h n = "" ->
   stripHopByHop TrimSpace h !! n
   = if decide (Http.Get h "Connection" <> "" /\
                n ∈ Textproto.CanonicalMIMEHeaderKey
                      <$> connectionFields TrimSpace (Http.Get h "Connection"))
     then None else h !! n).
Proof.
  intros Hn. pose proof (stripHopByHop_Get TrimSpace h n Hn) as HGet.
  assert (Textproto.CanonicalMIMEHeaderKey n = n) as Hcanon.
  { pose proof hopHeaders_canonical as Hall.
    rewrite Forall_forall in Hall. apply Hall. by apply list_elem_of_In. }
  pose proof (Get_empty_lookup _ n Hcanon HGet) as Hcases.
  split; [exact HGet|]. split; [exact Hcases|]. split; [|split].
  - intros v vs Hh Hv [x Hx].
    destruct (stripHopByHop_lookup TrimSpace h n) as [He|He]; [congruence|].
    rewrite Hh in He. rewrite He in Hcases.
    destruct Hcases as [?|[?|[? ?]]]; congruence.
  - intros Hkeys. apply noValueUnder_canonical; [|exact HGet|exact Hcanon].
    eapply canonicalKeys_deleted; [apply stripHopByHop_lookup|exact Hkeys].
  - intros Hfv. rewrite stripHopByHop_entries.
    destruct (decide (Http.Get h "Connection" <> "" /\ _)); [reflexivity|].
    rewrite decide_False; [reflexivity|]. by intros [_ Hne].
Qed.

Lemma stripHopByHop_hop_headers_witness :
  In KeepAlive hopHeaders /\
  canonicalKeys {[KeepAlive := ["timeout=5"]]} /\
  ~ present (stripHopByHop Strings.TrimSpaceASCII {[KeepAlive := ["timeout=5"]]})
            KeepAlive /\
  noValueUnder (stripHopByHop Strings.TrimSpaceASCII {[KeepAlive := ["timeout=5"]]})
               KeepAlive /\
  firstValue {[Connection := ["Keep-Alive"]; KeepAlive := [""]]} KeepAlive = "" /\
  stripHopByHop Strings.TrimSpaceASCII {[Connection := ["Keep-Alive"]; KeepAlive := [""]]}
    !! KeepAlive = None.
Proof.
  assert (canonicalKeys {[KeepAlive := ["timeout=5"]]}) as Hkeys.
  { intros k [x Hx]. apply lookup_singleton_Some in Hx as [<- _]. reflexivity. }
  assert (In KeepAlive hopHeaders) as Hin by (simpl; tauto).
  destruct (stripHopByHop_hop_headers Strings.TrimSpaceASCII
              {[KeepAlive := ["timeout=5"]]} KeepAlive Hin) as (_ & _ & Hgone & Hcase & _).
  destruct (stripHopByHop_hop_headers Strings.TrimSpaceASCII
              {[Connection := ["Keep-Alive"]; KeepAlive := [""]]} KeepAlive Hin)
    as (_ & _ & _ & _ & Hempty).
  split; [exact Hin|]. split; [exact Hkeys|]. split; [|split; [|split]].
  - apply (Hgone "timeout=5" []); [reflexivity | discriminate].
  - exact (Hcase Hkeys).
  - reflexivity.
  - rewrite Hempty by reflexivity. reflexivity.
Defined.

(** C5 (as stated) fails: a hop-by-hop header whose first value is the
    empty string is skipped by the loop and stays. *)
Lemma stripHopByHop_keeps_empty_value :
  In KeepAlive hopHeaders /\
  present (stripHopByHop Strings.TrimSpaceASCII {[KeepAlive := [""]]}) KeepAlive.
Proof. split; [simpl; tauto|]. exists [""]. reflexivity. Qed.

(** C8.  Stripping twice is stripping once. *)
Theorem stripHopByHop_idempotent (TrimSpace : string -> string) (h : Header) :
  stripHopByHop TrimSpace (stripHopByHop TrimSpace h) = stripHopByHop TrimSpace h.
Proof.
  set (h1 := stripHopByHop TrimSpace h).
  assert (forall n, In n hopHeaders -> Http.Get h1 n = "") as Hempty.
  { intros n Hn. by apply stripHopByHop_Get. }
  unfold stripHopByHop at 1.
  rewrite removeConnectionHeaders_id.
  - by apply deleteListed_id.
  - apply Hempty. simpl. tauto.
Qed.

(** ** The monad: what a computation leaves untouched *)

Lemma touchesOnly_ret {A : Type} (l : loc) (a : A) : touchesOnly l (ret a).
Proof. by intros w k _. Qed.

Lemma touchesOnly_panic {A : Type} (l : loc) : touchesOnly l (@panic A).
Proof. by intros w k _. Qed.

Lemma touchesOnly_bind {A B : Type} (l : loc) (m : M A) (f : A -> M B) :
  touchesOnly l m -> (forall a, touchesOnly l (f a)) -> touchesOnly l (bind m f).
Proof.
  intros Hm Hf w k Hk. unfold bind. specialize (Hm w k Hk).
  destruct (m w) as [[a|] w1]; simpl in *; [|exact Hm].
  rewrite <- Hm. by apply Hf.
Qed.

Lemma touchesOnly_emit (l : loc) (e : Event) : touchesOnly l (emit e).
Proof. by intros w k _. Qed.

Lemma touchesOnly_loadHeader (l : loc) (p : option loc) : touchesOnly l (loadHeader p).
Proof. by intros w k _. Qed.

Lemma touchesOnly_loadURL (l : loc) (p : option loc) : touchesOnly l (loadURL p).
Proof. intros w k _. unfold loadURL. by destruct (p ≫= _). Qed.

Lemma touchesOnly_storeURL (l : loc) (p : option loc) (u : URL) :
  touchesOnly l (storeURL p u).
Proof. intros w k _. unfold storeURL. by destruct (p ≫= _). Qed.

Lemma touchesOnly_writeThrough (l : loc) (f : Header -> Header) :
  touchesOnly l (writeThrough (Some l) f).
Proof.
  intros w k Hk. unfold writeThrough. simpl.
  destruct (headers w !! l); simpl; [|done]. by rewrite lookup_insert_ne.
Qed.

Lemma touchesOnly_deleteThrough (l : loc) (f : Header -> Header) :
  touchesOnly l (deleteThrough (Some l) f).
Proof.
  intros w k Hk. unfold deleteThrough. simpl.
  destruct (headers w !! l); simpl; [|done]. by rewrite lookup_insert_ne.
Qed.

Lemma touchesOnly_director (target : URL) (host : string) (pu : option loc) (l : loc) :
  touchesOnly l (director target (mkRequest host pu (Some l))).
Proof.
  unfold director. cbn [req_URL req_Header].
  apply touchesOnly_bind; [apply touchesOnly_loadURL|]. intros u.
  apply touchesOnly_bind; [apply touchesOnly_storeURL|]. intros _.
  apply touchesOnly_bind; [apply touchesOnly_loadHeader|]. intros h.
  apply touchesOnly_bind.
  { destruct (h !! "User-Agent"); [apply touchesOnly_ret | apply touchesOnly_writeThrough]. }
  intros _.
  apply touchesOnly_bind; [apply touchesOnly_storeURL|]. intros _.
  apply touchesOnly_ret.
Qed.

(** The Director of [NewSingleHostReverseProxy] returns the request it was
    given. *)
Lemma director_returns_req (target : URL) (req : Request) (w : World) :
  match director target req w with
  | (Returned req', _) => req' = req
  | (Panicked, _) => True
  end.
Proof.
  unfold director, bind.
  destruct (loadURL (req_URL req) w) as [[u|] w1]; [|done].
  destruct (storeURL _ _ w1) as [[[]|] w2]; [|done].
  destruct (loadHeader _ w2) as [[h|] w3]; [|done].
  destruct (h !! "User-Agent").
  - unfold ret at 1. destruct (storeURL _ _ w3) as [[[]|] w5]; done.
  - destruct (writeThrough _ _ w3) as [[[]|] w4]; [|done].
    destruct (storeURL _ _ w4) as [[[]|] w5]; done.
Qed.

(** ** The outbound request *)

Section OutboundRequest.

Variable env : Env.
Variable target : URL.

(** The outbound request of the single-host proxy leaves every header set
    of the store as it was. *)
Lemma outboundRequest_frame (req : Request) (w : World) :
  headers w ⊆ headers (outboundRequest env (NewSingleHostReverseProxy target) req w).2.
Proof.
  apply map_subseteq_spec. intros k hk Hk.
  unfold outboundRequest.
  set (l := fresh (dom (headers w))).
  assert (k <> l) as Hne.
  { intros ->. pose proof (is_fresh (dom (headers w))) as Hfresh.
    apply Hfresh. apply elem_of_dom. by exists hk. }
  unfold bind at 1. unfold makeHeader at 1. fold l.
  set (w1 := mkWorld (<[l:=∅]> (headers w)) (urls w) (trace w)).
  set (rest := bind (loadHeader (req_Header req)) _).
  assert (touchesOnly l rest) as Hrest.
  { unfold rest. cbn [req_Header].
    apply touchesOnly_bind; [apply touchesOnly_loadHeader|]. intros src.
    apply touchesOnly_bind; [apply touchesOnly_writeThrough|]. intros _.
    cbn [Director NewSingleHostReverseProxy].
    intros w' k' Hk'. unfold bind.
    pose proof (touchesOnly_director target (req_Host req) (req_URL req) l w' k' Hk')
      as Hdir.
    pose proof (director_returns_req target
                  (mkRequest (req_Host req) (req_URL req) (Some l)) w') as Hret.
    destruct (director target _ w') as [[req'|] w2]; simpl in *; [|exact Hdir].
    subst req'. rewrite <- Hdir.
    pose proof (touchesOnly_deleteThrough l (deleteListed WebsocketDialHeaders) w2 k' Hk')
      as Hdel.
    cbn [req_Header].
    destruct (deleteThrough (Some l) _ w2) as [[[]|] w3]; simpl in *; exact Hdel. }
  rewrite (Hrest w1 k Hne). unfold w1. simpl. by rewrite lookup_insert_ne.
Qed.

End OutboundRequest.

(** ** Running the primitives *)

Lemma writeThrough_run (l : loc) (f : Header -> Header) (w : World) (h : Header) :
  headers w !! l = Some h ->
  writeThrough (Some l) f w
  = (Returned tt, mkWorld (<[l := f h]> (headers w)) (urls w) (trace w)).
Proof. intros H. unfold writeThrough. simpl. by rewrite H. Qed.

Lemma deleteThrough_run (l : loc) (f : Header -> Header) (w : World) (h : Header) :
  headers w !! l = Some h ->
  deleteThrough (Some l) f w
  = (Returned tt, mkWorld (<[l := f h]> (headers w)) (urls w) (trace w)).
Proof. intros H. unfold deleteThrough. simpl. by rewrite H. Qed.

Lemma loadURL_run (l : loc) (w : World) (u : URL) :
  urls w !! l = Some u -> loadURL (Some l) w = (Returned u, w).
Proof. intros H. unfold loadURL. simpl. by rewrite H. Qed.

Lemma storeURL_run (l : loc) (w : World) (u u' : URL) :
  urls w !! l = Some u ->
  storeURL (Some l) u' w
  = (Returned tt, mkWorld (headers w) (<[l := u']> (urls w)) (trace w)).
Proof. intros H. unfold storeURL. simpl. by rewrite H. Qed.

Lemma bind_run {A B : Type} (m : M A) (f : A -> M B) (w w' : World) (a : A) :
  m w = (Returned a, w') -> bind m f w = f a w'.
Proof. intros H. unfold bind. by rewrite H. Qed.

(** The Director of the single-host proxy, run on a request with a URL and
    a header set. *)
Lemma director_run (target : URL) (req : Request) (w : World)
    (lu lh : loc) (u : URL) (h : Header) :
  req_URL req = Some lu -> req_Header req = Some lh ->
  urls w !! lu = Some u -> headers w !! lh = Some h ->
  director target req w
  = (Returned req,
     mkWorld
       (match h !! "User-Agent" with
        | Some _ => headers w
        | None => <[lh := Http.Set_ h "User-Agent" ""]> (headers w)
        end)
       (<[lu := rewriteURL target u]> (urls w))
       (trace w)).
Proof.
  intros Hu Hh Hlu Hlh. unfold director. rewrite Hu, Hh.
  rewrite (bind_run _ _ _ _ _ (loadURL_run lu w u Hlu)).
  cbn [Scheme Host Path RawQuery].
  erewrite bind_run; [|by apply (storeURL_run lu w u)].
  erewrite bind_run; [|reflexivity].
  cbn [headers mbind option_bind default].
  rewrite Hlh. cbn [default from_option]. unfold id.
  destruct (h !! "User-Agent") as [ua|] eqn:Hua.
  - erewrite bind_run; [|reflexivity].
    erewrite bind_run;
      [|eapply (storeURL_run lu); simpl; apply lookup_insert_eq].
    unfold ret. cbn [headers urls trace]. rewrite insert_insert_eq.
    unfold rewriteURL.
    destruct (String.eqb (RawQuery target) "" || String.eqb (RawQuery u) "");
      cbn [Scheme Host Path RawQuery];
      destruct (String.eqb (Scheme target) "https");
      destruct (String.eqb (Scheme target) "http"); reflexivity.
  - erewrite bind_run; [|by apply (writeThrough_run lh)].
    erewrite bind_run;
      [|eapply (storeURL_run lu); simpl; apply lookup_insert_eq].
    unfold ret. cbn [headers urls trace]. rewrite insert_insert_eq.
    unfold rewriteURL.
    destruct (String.eqb (RawQuery target) "" || String.eqb (RawQuery u) "");
      cbn [Scheme Host Path RawQuery];
      destruct (String.eqb (Scheme target) "https");
      destruct (String.eqb (Scheme target) "http"); reflexivity.
Qed.



Lemma dialArguments_header (outReq : Request) (w : World) :
  match dialArguments outReq w with
  | (Returned uh, w') => uh.2 = default ∅ (headerAt w (req_Header outReq)) /\ w' = w
  | (Panicked, _) => True
  end.
Proof.
  unfold dialArguments, bind, loadURL.
  destruct (req_URL outReq ≫= _); [|done].
  unfold loadHeader, ret, headerAt. by simpl.
Qed.

Section OutboundRequestRun.

Variable env : Env.
Variable target : URL.

(** The header set and URL of the outbound request of the single-host
    proxy, for a request whose URL is [u] at [lu]. *)
Lemma outboundRequest_run (req : Request) (w : World) (lu : loc) (u : URL) :
  req_URL req = Some lu -> urls w !! lu = Some u ->
  let l := fresh (dom (headers w)) in
  let h1 := copyHeader ∅ (rangeOrder env (default ∅ (headerAt w (req_Header req)))) in
  let h2 := match h1 !! "User-Agent" with
            | Some _ => h1
            | None => Http.Set_ h1 "User-Agent" ""
            end in
  outboundRequest env (NewSingleHostReverseProxy target) req w
  = (Returned (mkRequest (req_Host req) (Some lu) (Some l)),
     mkWorld (<[l := deleteListed WebsocketDialHeaders h2]> (headers w))
             (<[lu := rewriteURL target u]> (urls w))
             (trace w)).
Proof.
  intros Hu Hlu l h1 h2. unfold outboundRequest.
  erewrite bind_run; [|reflexivity]. fold l.
  erewrite bind_run; [|reflexivity].
  assert (default ∅ (req_Header req ≫= fun l0 => <[l:=∅]> (headers w) !! l0)
          = default ∅ (headerAt w (req_Header req))) as Hsrc.
  { unfold headerAt. destruct (req_Header req) as [l0|]; [|reflexivity]. simpl.
    destruct (decide (l = l0)) as [<-|Hne].
    - rewrite lookup_insert_eq. simpl.
      assert (headers w !! l = None) as ->; [|reflexivity].
      apply not_elem_of_dom, is_fresh.
    - by rewrite lookup_insert_ne. }
  cbn [headers]. rewrite Hsrc. cbn [req_Header].
  erewrite bind_run; [|apply (writeThrough_run l _ _ ∅); simpl; apply lookup_insert_eq].
  fold h1. cbn [Director NewSingleHostReverseProxy headers urls trace].
  rewrite insert_insert_eq.
  erewrite bind_run;
    [|apply (director_run target _ _ lu l u h1);
      [exact Hu | reflexivity | exact Hlu | simpl; apply lookup_insert_eq]].
  cbn [headers urls trace req_Header].
  erewrite bind_run;
    [|apply (deleteThrough_run l _ _ h2); simpl; unfold h2;
      destruct (h1 !! "User-Agent"); [|rewrite insert_insert_eq];
      apply lookup_insert_eq].
  unfold ret. cbn [headers urls trace]. rewrite Hu. f_equal. f_equal.
  destruct (h1 !! "User-Agent"); by rewrite !insert_insert_eq.
Qed.

End OutboundRequestRun.


(** [outboundRequest] uses nothing of the proxy but its Director. *)
Lemma outboundRequest_Director (env : Env) (p p' : ReverseProxy) (req : Request) :
  Director p = Director p' -> outboundRequest env p req = outboundRequest env p' req.
Proof. intros H. unfold outboundRequest. by rewrite H. Qed.

Lemma dialArguments_run (outReq : Request) (w : World) (lu : loc) (u : URL) :
  req_URL outReq = Some lu -> urls w !! lu = Some u ->
  dialArguments outReq w
  = (Returned (u, default ∅ (headerAt w (req_Header outReq))), w).
Proof.
  intros Hu Hlu. unfold dialArguments. rewrite Hu.
  rewrite (bind_run _ _ _ _ _ (loadURL_run lu w u Hlu)).
  reflexivity.
Qed.

Lemma outboundRequest_returns_fresh (env : Env) (target : URL) (req : Request) (w : World) :
  match outboundRequest env (NewSingleHostReverseProxy target) req w with
  | (Returned outReq, _) =>
      outReq = mkRequest (req_Host req) (req_URL req) (Some (fresh (dom (headers w))))
  | (Panicked, _) => True
  end.
Proof.
  unfold outboundRequest, bind.
  destruct (makeHeader w) as [[l|] w1] eqn:Hmk; [|done].
  assert (l = fresh (dom (headers w))) as -> by (unfold makeHeader in Hmk; congruence).
  destruct (loadHeader (req_Header req) w1) as [[src|] w2]; [|done].
  destruct (writeThrough _ _ w2) as [[[]|] w3]; [|done].
  cbn [Director NewSingleHostReverseProxy].
  pose proof (director_returns_req target
    (mkRequest (req_Host req) (req_URL req) (Some (fresh (dom (headers w))))) w3) as Hret.
  destruct (director target _ w3) as [[outReq|] w4]; [|done]. subst outReq.
  destruct (deleteThrough _ _ w4) as [[[]|] w5]; done.
Qed.




(** C7.  Building the outbound request of the single-host proxy changes no
    header set that was in the store, so the inbound request's headers read
    the same before and after, also when the construction panics; the
    outbound request points at a header set of its own. *)
Theorem outboundRequest_keeps_inbound_headers (env : Env) (target : URL)
    (req : Request) (w : World) :
  headers w ⊆ headers (outboundRequest env (NewSingleHostReverseProxy target) req w).2 /\
  (forall l h,
     req_Header req = Some l -> headers w !! l = Some h ->
     headerAt (outboundRequest env (NewSingleHostReverseProxy target) req w).2
              (req_Header req) = Some h /\
     forall outReq,
       (outboundRequest env (NewSingleHostReverseProxy target) req w).1 = Returned outReq ->
       req_Header outReq <> req_Header req).
Proof.
  pose proof (outboundRequest_frame env target req w) as Hframe.
  split; [exact Hframe|].
  intros l h Hl Hh. split.
  - unfold headerAt. rewrite Hl. simpl.
    rewrite map_subseteq_spec in Hframe. by apply Hframe.
  - intros outReq Hret.
    pose proof (outboundRequest_returns_fresh env target req w) as Hfresh.
    destruct (outboundRequest env (NewSingleHostReverseProxy target) req w)
      as [[outReq'|] w']; simpl in Hret; [|discriminate].
    injection Hret as ->. subst outReq. cbn [req_Header]. rewrite Hl.
    intros [= Heq].
    pose proof (is_fresh (dom (headers w))) as Hnot. apply Hnot.
    rewrite Heq. apply elem_of_dom. by exists h.
Qed.

Lemma outboundRequest_keeps_inbound_headers_witness :
  req_Header sampleRequest = Some 1%positive /\
  headerAt
    (outboundRequest refusedEnv (NewSingleHostReverseProxy sampleTarget) sampleRequest
       (sampleWorld {[Upgrade := ["websocket"]]})).2
    (req_Header sampleRequest) = Some {[Upgrade := ["websocket"]]}.
Proof.
  split; [reflexivity|].
  eapply (outboundRequest_keeps_inbound_headers refusedEnv sampleTarget sampleRequest
            (sampleWorld {[Upgrade := ["websocket"]]}));
    reflexivity.
Defined.

(** C10.  The outbound request points at the inbound request's URL object:
    after the construction the single-host proxy's rewrite of scheme, host,
    path and query is what the inbound request's [URL] field reads. *)
Theorem outboundRequest_shares_URL (env : Env) (target : URL) (req : Request)
    (w : World) (lu : loc) (u : URL) :
  req_URL req = Some lu -> urls w !! lu = Some u ->
  exists outReq w',
    outboundRequest env (NewSingleHostReverseProxy target) req w = (Returned outReq, w') /\
    req_URL outReq = req_URL req /\
    loadURL (req_URL req) w' = (Returned (rewriteURL target u), w').
Proof.
  intros Hu Hlu.
  pose proof (outboundRequest_run env target req w lu u Hu Hlu) as Hrun.
  cbv zeta in Hrun. eexists _, _. split; [exact Hrun|].
  split; [by rewrite Hu|].
  rewrite Hu. apply loadURL_run. simpl. apply lookup_insert_eq.
Qed.

Lemma outboundRequest_shares_URL_witness :
  exists outReq w',
    outboundRequest refusedEnv (NewSingleHostReverseProxy sampleTarget) sampleRequest
      (sampleWorld ∅) = (Returned outReq, w') /\
    req_URL outReq = req_URL sampleRequest /\
    loadURL (req_URL sampleRequest) w'
    = (Returned (mkURL "wss" "backend:8443" "/base/ws" "t=1&q=2"), w').
Proof.
  apply (outboundRequest_shares_URL refusedEnv sampleTarget sampleRequest (sampleWorld ∅)
           1%positive sampleURL); reflexivity.
Defined.

(** ** [logf] and the logging of the first relay result *)

Lemma logf_run (p : ReverseProxy) (format : string) (args : list Arg) (w : World) :
  logf p format args w
  = (match Logger p with Some _ => Returned tt | None => Panicked end,
     mkWorld (headers w) (urls w)
       (trace w ++ [match Logger p with
                    | Some _ => LoggerPrintf format args
                    | None => LogPrintf format args
                    end])).
Proof.
  unfold logf, bind. destruct (Logger p); unfold ret, emit, panic; simpl; [|done].
  reflexivity.
Qed.

(** C3 (the code at the failing input).  Without a logger, [logf] prints
    through the default logger and then panics on the [nil] logger. *)
Theorem logf_nil_Logger_panics (p : ReverseProxy) (format : string) (args : list Arg)
    (w : World) :
  Logger p = None ->
  logf p format args w
  = (Panicked, mkWorld (headers w) (urls w) (trace w ++ [LogPrintf format args])).
Proof. intros H. rewrite logf_run. by rewrite H. Qed.

Lemma logf_nil_Logger_panics_witness :
  Logger (NewSingleHostReverseProxy sampleTarget) = None /\
  logf (NewSingleHostReverseProxy sampleTarget) "http: proxy error: %v"
       [AErr (OtherErr "dial tcp: connection refused")] (sampleWorld ∅)
  = (Panicked,
     mkWorld (headers (sampleWorld ∅)) (urls (sampleWorld ∅))
       [LogPrintf "http: proxy error: %v" [AErr (OtherErr "dial tcp: connection refused")]]).
Proof.
  split; [reflexivity|].
  apply (logf_nil_Logger_panics (NewSingleHostReverseProxy sampleTarget)). reflexivity.
Defined.

Lemma newEvents_app {A : Type} (m : M A) (w : World) (evs : list Event) :
  trace (m w).2 = (trace w ++ evs)%list -> newEvents m w = evs.
Proof. intros H. unfold newEvents. rewrite H. apply drop_app_length. Qed.

Lemma reportFirst_events (env : Env) (p : ReverseProxy) (w : World) :
  newEvents (reportFirst env p) w =
  let err := (firstResult env).2 in
  let message :=
    match (firstResult env).1 with
    | errClient => "websocket: Error when copying from backend to client: %v"
    | errBackend => "websocket: Error when copying from client to backend: %v"
    end in
  let logged := [match Logger p with
                 | Some _ => LoggerPrintf message [AErr err]
                 | None => LogPrintf message [AErr err]
                 end] in
  match err with
  | CloseErr e =>
      if (Websocket.Code e =? Websocket.CloseAbnormalClosure)%Z then logged else []
  | OtherErr _ => logged
  end.
Proof.
  apply newEvents_app. unfold reportFirst.
  destruct (firstResult env) as [d err]. cbn [fst snd].
  destruct err as [e|msg].
  - destruct (Websocket.Code e =? Websocket.CloseAbnormalClosure)%Z.
    + by rewrite logf_run.
    + unfold ret. simpl. by rewrite app_nil_r.
  - by rewrite logf_run.
Qed.

(** C2 (as amended).  The first relay result is logged exactly when it is
    not a close error or is a close error with code "abnormal closure"; a
    close error with any other code is not logged. *)
Theorem reportFirst_logs (env : Env) (p : ReverseProxy) (w : World) :
  logsError (newEvents (reportFirst env p) w) (firstResult env).2 <->
  match (firstResult env).2 with
  | CloseErr e => Websocket.Code e = Websocket.CloseAbnormalClosure
  | OtherErr _ => True
  end.
Proof.
  rewrite reportFirst_events. cbv zeta.
  destruct ((firstResult env).2) as [e|msg] eqn:Herr.
  - destruct (Z.eqb_spec (Websocket.Code e) Websocket.CloseAbnormalClosure) as [He|He].
    + split; [done|]. intros _. eexists.
      destruct (Logger p); [right|left]; by left.
    + split; [|done]. intros [format [[]|[]]].
  - split; [done|]. intros _. eexists.
    destruct (Logger p); [right|left]; by left.
Qed.

Lemma reportFirst_logs_witness :
  logsError (newEvents (reportFirst (closedEnv 1006 "unexpected EOF") loggingProxy)
                       (sampleWorld ∅))
            (CloseErr (Websocket.mkCloseError 1006 "unexpected EOF")).
Proof.
  apply (reportFirst_logs (closedEnv 1006 "unexpected EOF") loggingProxy (sampleWorld ∅)).
  reflexivity.
Defined.

(** C2 (as stated) fails both ways: a close error with code "normal
    closure" is not logged, one with code "abnormal closure" is. *)
Lemma normal_closure_not_logged :
  ~ logsError (newEvents (reportFirst (closedEnv 1000 "") loggingProxy) (sampleWorld ∅))
              (CloseErr (Websocket.mkCloseError 1000 "")) /\
  logsError (newEvents (reportFirst (closedEnv 1006 "unexpected EOF") loggingProxy)
                       (sampleWorld ∅))
            (CloseErr (Websocket.mkCloseError 1006 "unexpected EOF")).
Proof.
  split.
  - intros [format [[]|[]]].
  - eexists. right. left. reflexivity.
Qed.

(** ** [ServeHTTP]: a failed upgrade after a successful dial *)

Section UpgradeFailure.

Variable TrimSpace : string -> string.
Variable env : Env.
Variable p : ReverseProxy.

Lemma ServeHTTP_upgrade_failure (req outReq : Request) (w w1 : World)
    (u : URL) (h : Header) (resp : Response) (err : error) :
  outboundRequest env p req w = (Returned outReq, w1) ->
  dialArguments outReq w1 = (Returned (u, h), w1) ->
  dial env u h = (Some resp, None) ->
  upgrade env (upgradeHeader TrimSpace env resp) = Some err ->
  ServeHTTP TrimSpace env p req w
  = (match Logger p with Some _ => Returned tt | None => Panicked end,
     mkWorld (headers w1) (urls w1)
       (trace w1 ++
        [DialContext u h; Upgrade_ (upgradeHeader TrimSpace env resp);
         match Logger p with
         | Some _ =>
             LoggerPrintf "websocket: Error while upgrading connection : %v" [AErr err]
         | None =>
             LogPrintf "websocket: Error while upgrading connection : %v" [AErr err]
         end])).
Proof.
  intros Hout Hargs Hdial Hup. unfold ServeHTTP.
  rewrite (bind_run _ _ _ _ _ Hout).
  rewrite (bind_run _ _ _ _ _ Hargs).
  cbn [fst snd].
  erewrite bind_run; [|reflexivity].
  rewrite Hdial.
  erewrite bind_run; [|reflexivity].
  fold (upgradeHeader TrimSpace env resp). rewrite Hup. rewrite logf_run.
  cbn [headers urls trace]. by rewrite <- !app_assoc.
Qed.

End UpgradeFailure.

(** C9 (as amended).  When the dial succeeds and the upgrade fails,
    [ServeHTTP] dials, tries the upgrade, logs and stops: after the dial no
    connection is closed and the closed hook is not called; with a logger
    configured it returns. *)
Theorem upgrade_failure_leaves_backend_open (TrimSpace : string -> string) (env : Env)
    (p : ReverseProxy) (req outReq : Request) (w w1 : World)
    (u : URL) (h : Header) (resp : Response) (err : error) :
  outboundRequest env p req w = (Returned outReq, w1) ->
  dialArguments outReq w1 = (Returned (u, h), w1) ->
  dial env u h = (Some resp, None) ->
  upgrade env (upgradeHeader TrimSpace env resp) = Some err ->
  (exists logged,
     trace (ServeHTTP TrimSpace env p req w).2
     = (trace w1 ++ [DialContext u h; Upgrade_ (upgradeHeader TrimSpace env resp); logged])%list /\
     (logged = LoggerPrintf "websocket: Error while upgrading connection : %v" [AErr err] \/
      logged = LogPrintf "websocket: Error while upgrading connection : %v" [AErr err])) /\
  (forall e, In e (drop (length (trace w1)) (trace (ServeHTTP TrimSpace env p req w).2)) ->
             (forall c, e <> Close c) /\ (forall r c, e <> HookCall r c)) /\
  (Logger p <> None -> (ServeHTTP TrimSpace env p req w).1 = Returned tt).
Proof.
  intros Hout Hargs Hdial Hup.
  rewrite (ServeHTTP_upgrade_failure TrimSpace env p req outReq w w1 u h resp err
             Hout Hargs Hdial Hup).
  cbn [fst snd trace]. split; [|split].
  - eexists. split; [reflexivity|]. destruct (Logger p); eauto.
  - intros e. rewrite drop_app_length. intros He. simpl in He.
    destruct He as [<-|[<-|[<-|[]]]]; try (split; intros; discriminate).
    destruct (Logger p); split; intros; discriminate.
  - intros Hl. by destruct (Logger p).
Qed.

Lemma upgrade_failure_leaves_backend_open_witness :
  (ServeHTTP Strings.TrimSpaceASCII upgradeFailedEnv loggingProxy sampleRequest
             (sampleWorld ∅)).1 = Returned tt /\
  forall e,
    In e (trace (ServeHTTP Strings.TrimSpaceASCII upgradeFailedEnv loggingProxy
                           sampleRequest (sampleWorld ∅)).2) ->
    (forall c, e <> Close c) /\ (forall r c, e <> HookCall r c).
Proof.
  edestruct (upgrade_failure_leaves_backend_open Strings.TrimSpaceASCII upgradeFailedEnv
               loggingProxy sampleRequest)
    as (_ & Hev & Hret).
  - rewrite (outboundRequest_Director upgradeFailedEnv loggingProxy
               (NewSingleHostReverseProxy sampleTarget)) by reflexivity.
    apply (outboundRequest_run upgradeFailedEnv sampleTarget sampleRequest (sampleWorld ∅)
             1%positive sampleURL); reflexivity.
  - apply (dialArguments_run _ _ 1%positive); [reflexivity | apply lookup_insert_eq].
  - reflexivity.
  - reflexivity.
  - split; [apply Hret; discriminate | exact Hev].
Defined.

(** C9 (as stated) fails where no logger is configured: the log call of
    the failed upgrade panics, so [ServeHTTP] does not return; the backend
    connection is still not closed and the hook still not called. *)
Lemma upgrade_failure_without_logger_panics :
  Logger (NewSingleHostReverseProxy sampleTarget) = None /\
  (ServeHTTP Strings.TrimSpaceASCII upgradeFailedEnv (NewSingleHostReverseProxy sampleTarget)
             sampleRequest (sampleWorld ∅)).1 = Panicked /\
  trace (ServeHTTP Strings.TrimSpaceASCII upgradeFailedEnv
                   (NewSingleHostReverseProxy sampleTarget) sampleRequest (sampleWorld ∅)).2
  = [DialContext (mkURL "wss" "backend:8443" "/base/ws" "t=1&q=2") {["User-Agent" := [""]]};
     Upgrade_ ∅;
     LogPrintf "websocket: Error while upgrading connection : %v"
       [AErr (OtherErr "websocket: the client is not using the websocket protocol")]].
Proof. split; [reflexivity|]. split; vm_compute; reflexivity. Qed.

(** ** The relay loop *)

Lemma byteOfZ_to_N (z : Z) :
  (0 <= z < 256)%Z -> Z.of_N (Byte.to_N (Websocket.byteOfZ z)) = z.
Proof.
  intros Hz. unfold Websocket.byteOfZ. rewrite Z.mod_small by lia.
  destruct (Byte.of_N (Z.to_N z)) as [b|] eqn:Hb.
  - simpl. rewrite (Byte.to_of_N _ Hb). lia.
  - apply Byte.of_N_None_iff in Hb. lia.
Qed.

(** A close payload reads back as the code and the text it was made of,
    for a code that fits the two bytes of the frame. *)
Lemma parse_FormatCloseMessage (code : Z) (text : string) :
  (0 <= code < 65536)%Z -> code <> Websocket.CloseNoStatusReceived ->
  Websocket.parseCloseMessage (Websocket.FormatCloseMessage code text)
  = Some (code, text).
Proof.
  intros Hc Hne. unfold Websocket.FormatCloseMessage.
  destruct (Z.eqb_spec code Websocket.CloseNoStatusReceived) as [He|_]; [done|].
  unfold Websocket.parseCloseMessage. rewrite Z.mod_small by lia.
  rewrite string_of_list_byte_of_string.
  change 255%Z with (Z.ones 8). rewrite Z.land_ones by lia.
  rewrite Z.shiftr_div_pow2 by lia.
  assert (0 <= code / 2 ^ 8 < 256)%Z as Hhi.
  { split; [apply Z.div_pos; lia | apply Z.div_lt_upper_bound; lia]. }
  assert (0 <= code mod 2 ^ 8 < 256)%Z as Hlo by (apply Z.mod_pos_bound; lia).
  rewrite !byteOfZ_to_N by assumption.
  f_equal. f_equal. pose proof (Z.div_mod code (2 ^ 8)). lia.
Qed.

(** The payload of lines 296-308 is the one of the translation. *)
Lemma closeMessage_translation (err : error) :
  Relay.closeMessage err
  = (fun ct => Websocket.FormatCloseMessage ct.1 ct.2) <$> closeTranslation err.
Proof.
  unfold Relay.closeMessage, closeTranslation. destruct err as [e|d]; [|reflexivity].
  destruct (Websocket.Code e =? Websocket.CloseNoStatusReceived)%Z; [reflexivity|].
  destruct (Websocket.Code e =? Websocket.CloseAbnormalClosure)%Z; [reflexivity|].
  destruct (Websocket.Code e =? Websocket.CloseTLSHandshake)%Z; reflexivity.
Qed.

Lemma onReadError_translation (fwd : option error) (err : error) :
  Relay.onReadError fwd err = Relay.SendErr err :: closeForward fwd err.
Proof.
  unfold Relay.onReadError, closeForward. rewrite closeMessage_translation.
  by destruct (closeTranslation err) as [[code text]|].
Qed.

Lemma replicate_forwards (dst : nat -> option error) (pre : list Relay.Frame) :
  forall (k : nat) (src : list Relay.Frame),
    Forall (fun f => isReadError f = false) pre ->
    (forall i, i < length pre -> dst (k + i) = None) ->
    Relay.replicateWebsocketConn dst k (pre ++ src)%list
    = (concat (forwardedAs <$> pre)
         ++ (Relay.replicateWebsocketConn dst (k + length pre) src).1,
       (Relay.replicateWebsocketConn dst (k + length pre) src).2)%list.
Proof.
  induction pre as [|f pre IH]; intros k src Hpre Hdst.
  - simpl. rewrite Nat.add_0_r. by destruct (Relay.replicateWebsocketConn dst k src).
  - inversion Hpre as [|? ? Hf Hpre']; subst.
    assert (dst k = None) as Hk.
    { rewrite <- (Nat.add_0_r k). apply Hdst. simpl. lia. }
    assert (forall i, i < length pre -> dst (S k + i) = None) as Hdst'.
    { intros i Hi. replace (S k + i) with (k + S i) by lia. apply Hdst. simpl. lia. }
    specialize (IH (S k) src Hpre' Hdst').
    replace (k + length (f :: pre)) with (S k + length pre) by (simpl; lia).
    destruct f as [msgType payload|data|data|err]; [| | |discriminate];
      simpl; rewrite Hk; simpl in IH; rewrite IH; reflexivity.
Qed.

Lemma closeTranslation_code (err : error) (code : Z) (text : string) :
  closeTranslation err = Some (code, text) -> code <> Websocket.CloseNoStatusReceived.
Proof.
  unfold closeTranslation. destruct err as [e|d].
  - destruct (Z.eqb_spec (Websocket.Code e) Websocket.CloseNoStatusReceived) as [He|He].
    + intros [= <- _]. discriminate.
    + destruct ((Websocket.Code e =? Websocket.CloseAbnormalClosure)%Z
                || (Websocket.Code e =? Websocket.CloseTLSHandshake)%Z); [discriminate|].
      by intros [= <- _].
  - intros [= <- _]. discriminate.
Qed.

(** C1.  When the source delivers the read error [err] after frames that
    were all forwarded, the loop sends [err] on the channel, then forwards
    the close frame of the translation, if there is one, and stops; the
    payload of that frame reads back as the code and text of the
    translation. *)
Theorem relay_close_translation (dst : nat -> option error) (k : nat)
    (pre rest : list Relay.Frame) (err : error) :
  Forall (fun f => isReadError f = false) pre ->
  (forall i, i < length pre -> dst (k + i) = None) ->
  Relay.replicateWebsocketConn dst k (pre ++ Relay.ReadError err :: rest)%list
  = (concat (forwardedAs <$> pre)
       ++ Relay.SendErr err :: closeForward (dst (k + length pre)) err,
     Relay.Done)%list /\
  (forall code text,
     closeTranslation err = Some (code, text) -> (0 <= code < 65536)%Z ->
     Websocket.parseCloseMessage (Websocket.FormatCloseMessage code text)
     = Some (code, text)).
Proof.
  intros Hpre Hdst. split.
  - rewrite (replicate_forwards dst pre k _ Hpre Hdst).
    cbn [Relay.replicateWebsocketConn fst snd].
    by rewrite onReadError_translation.
  - intros code text Htr Hrange. apply parse_FormatCloseMessage; [exact Hrange|].
    by apply (closeTranslation_code err code text).
Qed.

Lemma relay_close_translation_witness :
  Relay.replicateWebsocketConn (fun _ => None) 0
    [Relay.Data Websocket.TextMessage [Byte.x68; Byte.x69];
     Relay.ReadError (CloseErr (Websocket.mkCloseError 1001 "bye"))]
  = ([Relay.Forward Websocket.TextMessage [Byte.x68; Byte.x69] None;
      Relay.SendErr (CloseErr (Websocket.mkCloseError 1001 "bye"));
      Relay.Forward Websocket.CloseMessage
        [Byte.x03; Byte.xe9; Byte.x62; Byte.x79; Byte.x65] None],
     Relay.Done) /\
  Websocket.parseCloseMessage [Byte.x03; Byte.xe9; Byte.x62; Byte.x79; Byte.x65]
  = Some (1001%Z, "bye").
Proof.
  pose proof (relay_close_translation (fun _ => None) 0
                [Relay.Data Websocket.TextMessage [Byte.x68; Byte.x69]] []
                (CloseErr (Websocket.mkCloseError 1001 "bye"))) as H.
  destruct H as [Hrun Hparse].
  - repeat constructor.
  - reflexivity.
  - split; [exact Hrun|].
    apply (Hparse 1001%Z "bye"); [reflexivity | lia].
Defined.

(** ** The model on sample inputs *)

Example CanonicalMIMEHeaderKey_examples :
  Textproto.CanonicalMIMEHeaderKey "sec-webSocket-key" = SecWebsocketKey /\
  Textproto.CanonicalMIMEHeaderKey "TE" = Te /\
  Textproto.CanonicalMIMEHeaderKey "not a token" = "not a token".
Proof. repeat split; reflexivity. Qed.

Example Split_TrimSpace_examples :
  Strings.splitByte "," "keep-alive, Foo,,bar" = ["keep-alive"; " Foo"; ""; "bar"] /\
  Strings.splitByte "," "" = [""] /\
  Strings.TrimSpaceASCII "  keep-alive " = "keep-alive".
Proof. repeat split; reflexivity. Qed.

Example removeConnectionHeaders_example :
  stripHopByHop Strings.TrimSpaceASCII
    {[Connection := ["keep-alive, X-Trace"]; KeepAlive := ["timeout=5"];
      "X-Trace" := ["1"]; "Server" := ["backend"]; Upgrade := ["websocket"]]}
  = {["Server" := ["backend"]]}.
Proof. vm_compute. reflexivity. Qed.

Example Error_examples :
  Error (CloseErr (Websocket.mkCloseError 1005 "")) = "websocket: close 1005 (no status)" /\
  Error (CloseErr (Websocket.mkCloseError 1001 "bye"))
  = "websocket: close 1001 (going away): bye" /\
  Error (OtherErr "unexpected EOF") = "unexpected EOF".
Proof. repeat split; reflexivity. Qed.

(** A refused dial with no logger configured: the first [logf] panics
    before the error handler is reached. *)
Example ServeHTTP_refused_without_logger :
  ServeHTTP Strings.TrimSpaceASCII refusedEnv (NewSingleHostReverseProxy sampleTarget)
            sampleRequest (sampleWorld {[Upgrade := ["websocket"]]})
  = (Panicked,
     mkWorld {[1%positive := {[Upgrade := ["websocket"]]};
               2%positive := {["User-Agent" := [""]]}]}
             {[1%positive := mkURL "wss" "backend:8443" "/base/ws" "t=1&q=2"]}
             [DialContext (mkURL "wss" "backend:8443" "/base/ws" "t=1&q=2")
                          {["User-Agent" := [""]]};
              LogPrintf "websocket: Error dialing %q: %v"
                        [AStr "proxy.local"; AErr (OtherErr "dial tcp: connection refused")]]).
Proof. vm_compute. reflexivity. Qed.

(** A relay that ends with a normal closure: nothing is logged, both
    connections are closed, then the hook is called. *)
Example ServeHTTP_relay_teardown :
  (ServeHTTP Strings.TrimSpaceASCII (closedEnv 1000 "") loggingProxy
             sampleRequest (sampleWorld ∅)).1 = Returned tt /\
  trace (ServeHTTP Strings.TrimSpaceASCII (closedEnv 1000 "") loggingProxy
                   sampleRequest (sampleWorld ∅)).2
  = [DialContext (mkURL "wss" "backend:8443" "/base/ws" "t=1&q=2") {["User-Agent" := [""]]};
     Upgrade_ ∅;
     Go underlyingConn targetConn;
     Go targetConn underlyingConn;
     Close underlyingConn;
     Close targetConn;
     HookCall sampleRequest underlyingConn].
Proof. split; vm_compute; reflexivity. Qed.

(** A ping whose forward fails ends the loop as a read error does. *)
Example replicate_ping_failure :
  Relay.replicateWebsocketConn
    (fun k => if (k =? 0)%nat then Some (OtherErr "write: broken pipe") else None) 0
    [Relay.Ping "p"; Relay.Data Websocket.TextMessage []]
  = ([Relay.Forward Websocket.PingMessage [Byte.x70] (Some (OtherErr "write: broken pipe"));
      Relay.SendErr (OtherErr "write: broken pipe");
      Relay.Forward Websocket.CloseMessage
        (Websocket.FormatCloseMessage 1000 "write: broken pipe") None],
     Relay.Done).
Proof. reflexivity. Qed.

(** * Further properties of the code *)

(** ** [copyHeader] *)

Lemma Add_all_lookup (key : string) (vv : list string) :
  forall (dst : Header) (k : string),
    foldl (fun d v => Http.Add d key v) dst vv !! k
    = if decide (Textproto.CanonicalMIMEHeaderKey key = k)
      then match vv with
           | [] => dst !! k
           | _ => Some (default [] (dst !! k) ++ vv)%list
           end
      else dst !! k.
Proof.
  induction vv as [|v vv IH]; intros dst k.
  - simpl. by destruct (decide _).
  - cbn [foldl]. rewrite IH. unfold Http.Add.
    destruct (decide (Textproto.CanonicalMIMEHeaderKey key = k)) as [<-|Hne].
    + rewrite lookup_insert_eq. cbn [default from_option]. unfold id.
      destruct vv as [|v' vv]; [reflexivity|].
      by rewrite <- app_assoc.
    + by rewrite lookup_insert_ne.
Qed.

Lemma valuesUnder_cons (k key : string) (vv : list string)
    (src : list (string * list string)) :
  valuesUnder k ((key, vv) :: src)
  = ((if decide (Textproto.CanonicalMIMEHeaderKey key = k) then vv else [])
       ++ valuesUnder k src)%list.
Proof.
  unfold valuesUnder. rewrite filter_cons. cbn [fst].
  destruct (decide (Textproto.CanonicalMIMEHeaderKey key = k)); reflexivity.
Qed.

Lemma copyHeader_lookup (src : list (string * list string)) (dst : Header) (k : string) :
  copyHeader dst src !! k
  = match valuesUnder k src with
    | [] => dst !! k
    | vs => Some (default [] (dst !! k) ++ vs)%list
    end.
Proof.
  revert dst. unfold copyHeader.
  induction src as [|[key vv] src IH]; intros dst; [reflexivity|].
  cbn [foldl fst snd]. rewrite IH, valuesUnder_cons, Add_all_lookup.
  destruct (decide (Textproto.CanonicalMIMEHeaderKey key = k)) as [Hk|Hk];
    [|reflexivity].
  destruct vv as [|v vv]; [reflexivity|].
  cbn [default from_option]. unfold id.
  destruct (valuesUnder k src) as [|w ws].
  - by rewrite app_nil_r.
  - by rewrite <- app_assoc.
Qed.

(** X1.  [copyHeader] appends: under each key the destination keeps the
    values it had, followed by the values the source holds under any casing
    of that key, in the order visited; a key the source has no value for is
    left as it was. *)
Theorem copyHeader_appends (src : list (string * list string)) (dst : Header) (k : string) :
  copyHeader dst src !! k
  = match valuesUnder k src with
    | [] => dst !! k
    | vs => Some (default [] (dst !! k) ++ vs)%list
    end.
Proof. apply copyHeader_lookup. Qed.

Lemma valuesUnder_NoDup (k : string) (l : list (string * list string)) :
  NoDup l.*1 ->
  (forall kv, kv ∈ l -> Textproto.CanonicalMIMEHeaderKey kv.1 = kv.1) ->
  valuesUnder k l = default [] ((list_to_map l : Header) !! k).
Proof.
  induction l as [|[key vv] l IH]; intros Hnd Hcanon; [reflexivity|].
  rewrite valuesUnder_cons. cbn [fmap list_fmap fst] in Hnd.
  apply NoDup_cons in Hnd as [Hnotin Hnd].
  rewrite IH; [|exact Hnd|intros kv Hkv; apply Hcanon; by right].
  pose proof (Hcanon (key, vv) ltac:(left)) as Hkey. cbn [fst] in Hkey.
  rewrite Hkey. cbn [list_to_map foldr fst snd].
  destruct (decide (key = k)) as [<-|Hne].
  - rewrite lookup_insert_eq.
    rewrite (not_elem_of_list_to_map_1 (M := gmap string)) by exact Hnotin.
    simpl. by rewrite app_nil_r.
  - by rewrite lookup_insert_ne.
Qed.

Lemma copyHeader_fresh_copy (src : Header) (order : list (string * list string))
    (k : string) :
  canonicalKeys src -> order ≡ₚ map_to_list src ->
  copyHeader ∅ order !! k
  = match src !! k with
    | Some (v :: vs) => Some (v :: vs)
    | _ => None
    end.
Proof.
  intros Hkeys Hperm. rewrite copyHeader_lookup, lookup_empty.
  assert (NoDup order.*1) as Hnd.
  { rewrite Hperm. apply NoDup_fst_map_to_list. }
  rewrite valuesUnder_NoDup; [|exact Hnd|].
  - rewrite (list_to_map_proper (M := gmap string) _ _ Hnd Hperm).
    rewrite list_to_map_to_list.
    by destruct (src !! k) as [[|v vs]|].
  - intros [key vv] Hin. rewrite Hperm in Hin.
    apply elem_of_map_to_list in Hin. apply Hkeys. by eexists.
Qed.

(** X2.  Copying a header set with canonical keys into an empty one gives
    the same entries back, whatever the order in which the [range] visits
    them, except that an entry without values is not created. *)
Theorem copyHeader_round_trip (src : Header) (order : list (string * list string))
    (k : string) :
  canonicalKeys src -> order ≡ₚ map_to_list src ->
  copyHeader ∅ order !! k
  = match src !! k with
    | Some (v :: vs) => Some (v :: vs)
    | _ => None
    end.
Proof. apply copyHeader_fresh_copy. Qed.

Lemma copyHeader_round_trip_witness :
  copyHeader ∅ (map_to_list ({[Upgrade := ["websocket"]; "X-Empty" := []]} : Header))
    !! Upgrade = Some ["websocket"].
Proof.
  rewrite (copyHeader_round_trip {[Upgrade := ["websocket"]; "X-Empty" := []]}).
  - reflexivity.
  - intros k [x Hx]. apply lookup_insert_Some in Hx as [[<- _]|[_ Hx]]; [reflexivity|].
    apply lookup_singleton_Some in Hx as [<- _]. reflexivity.
  - reflexivity.
Defined.

(** ** The deleting loops *)

(** X3.  The loop over a list of names (the dial headers on the outbound
    request, the hop-by-hop headers on the backend response) deletes exactly
    the entries under a listed name whose first value is not the empty
    string; every other entry is left as it was. *)
Theorem deleteListed_deletes_exactly (names : list string) (h : Header) (k : string) :
  deleteListed names h !! k
  = if decide (k ∈ Textproto.CanonicalMIMEHeaderKey <$> names /\ firstValue h k <> "")
    then None else h !! k.
Proof. apply deleteListed_exact. Qed.

(** ** [removeConnectionHeaders] *)

(** X4.  [removeConnectionHeaders] deletes exactly the entries named, in
    any casing, by the trimmed non-empty fields of the first [Connection]
    value, and nothing when that value is missing or empty. *)
Theorem removeConnectionHeaders_deletes_exactly (TrimSpace : string -> string)
    (h : Header) (k : string) :
  removeConnectionHeaders TrimSpace h !! k
  = if decide (Http.Get h "Connection" <> "" /\
               k ∈ Textproto.CanonicalMIMEHeaderKey
                     <$> connectionFields TrimSpace (Http.Get h "Connection"))
    then None else h !! k.
Proof. apply removeConnectionHeaders_exact. Qed.

(** X5.  The stripping of the backend response headers removes the entries
    the [Connection] value names and the hop-by-hop entries whose first value
    is not the empty string; every other entry reaches the upgrade with the
    values it had. *)
Theorem stripHopByHop_exact (TrimSpace : string -> string) (h : Header) (k : string) :
  stripHopByHop TrimSpace h !! k
  = if decide (Http.Get h "Connection" <> "" /\
               k ∈ Textproto.CanonicalMIMEHeaderKey
                     <$> connectionFields TrimSpace (Http.Get h "Connection"))
    then None
    else if decide (k ∈ hopHeaders /\ firstValue h k <> "")
    then None
    else h !! k.
Proof. apply stripHopByHop_entries. Qed.

(** ** The headers sent to the backend *)

(** X6.  With the Director of the single-host proxy, for an inbound request
    whose header keys are canonical, the headers the dial receives are the
    inbound ones with these changes only: entries without values are dropped,
    a dial header whose first value is not the empty string is dropped, and
    [User-Agent] is set to one empty value when the request has none. *)
Theorem outbound_headers_forwarded (env : Env) (target : URL) (req : Request)
    (w : World) (lu : loc) (u : URL) :
  req_URL req = Some lu -> urls w !! lu = Some u ->
  canonicalKeys (default ∅ (headerAt w (req_Header req))) ->
  rangeOrder env (default ∅ (headerAt w (req_Header req)))
    ≡ₚ map_to_list (default ∅ (headerAt w (req_Header req))) ->
  exists outReq w' h,
    outboundRequest env (NewSingleHostReverseProxy target) req w = (Returned outReq, w') /\
    dialArguments outReq w' = (Returned (rewriteURL target u, h), w') /\
    forall k,
      h !! k
      = if decide (k ∈ WebsocketDialHeaders /\
                   firstValue (default ∅ (headerAt w (req_Header req))) k <> "")
        then None
        else match default ∅ (headerAt w (req_Header req)) !! k with
             | Some (v :: vs) => Some (v :: vs)
             | _ => if decide (k = "User-Agent") then Some [""] else None
             end.
Proof.
  intros Hu Hlu Hkeys Hperm.
  pose proof (outboundRequest_run env target req w lu u Hu Hlu) as Hrun.
  cbv zeta in Hrun. set (src := default ∅ (headerAt w (req_Header req))) in *.
  set (h1 := copyHeader ∅ (rangeOrder env src)) in *.
  assert (forall k, h1 !! k = match src !! k with
                              | Some (v :: vs) => Some (v :: vs)
                              | _ => None
                              end) as Hh1.
  { intros k. by apply copyHeader_fresh_copy. }
  set (h2 := match h1 !! "User-Agent" with
             | Some _ => h1
             | None => Http.Set_ h1 "User-Agent" ""
             end) in *.
  assert (forall k, h2 !! k = match src !! k with
                              | Some (v :: vs) => Some (v :: vs)
                              | _ => if decide (k = "User-Agent") then Some [""] else None
                              end) as Hh2.
  { intros k. unfold h2. pose proof (Hh1 "User-Agent") as Hua.
    destruct (h1 !! "User-Agent") as [ua|] eqn:Hlook.
    - rewrite Hh1. destruct (src !! k) as [[|v vs]|] eqn:Hk; try reflexivity;
        destruct (decide (k = "User-Agent")) as [->|Hne]; try reflexivity;
        rewrite Hk in Hua; discriminate.
    - unfold Http.Set_.
      change (Textproto.CanonicalMIMEHeaderKey "User-Agent") with "User-Agent".
      destruct (decide (k = "User-Agent")) as [->|Hne].
      + rewrite lookup_insert_eq. by destruct (src !! "User-Agent") as [[|v vs]|].
      + rewrite lookup_insert_ne by done. rewrite Hh1.
        by destruct (src !! k) as [[|v vs]|]. }
  eexists _, _, (deleteListed WebsocketDialHeaders h2). split; [exact Hrun|]. split.
  - rewrite (dialArguments_run _ _ lu (rewriteURL target u));
      [|reflexivity | simpl; apply lookup_insert_eq].
    unfold headerAt. cbn [req_Header headers mbind option_bind].
    rewrite lookup_insert_eq. reflexivity.
  - intros k. rewrite deleteListed_exact, WebsocketDialHeaders_canonical_map.
    assert (k ∈ WebsocketDialHeaders -> firstValue h2 k = firstValue src k) as Hfv.
    { intros Hin. unfold firstValue. rewrite Hh2.
      destruct (src !! k) as [[|v vs]|]; try reflexivity;
        destruct (decide (k = "User-Agent")) as [->|Hne]; try reflexivity;
        exfalso; revert Hin; clear; intros Hin;
        repeat (apply elem_of_cons in Hin as [Hin|Hin]; [discriminate|]);
        by apply elem_of_nil in Hin. }
    destruct (decide (k ∈ WebsocketDialHeaders /\ firstValue h2 k <> "")) as [[Hin Hne]|Hno].
    + rewrite decide_True; [reflexivity|]. split; [done | by rewrite <- Hfv].
    + rewrite decide_False; [apply Hh2|].
      intros [Hin Hne]. apply Hno. split; [done | by rewrite Hfv].
Qed.

Lemma outbound_headers_forwarded_witness :
  exists outReq w' h,
    outboundRequest refusedEnv (NewSingleHostReverseProxy sampleTarget) sampleRequest
      (sampleWorld {[Upgrade := ["websocket"]; "Cookie" := ["a=1"]]})
    = (Returned outReq, w') /\
    dialArguments outReq w' = (Returned (rewriteURL sampleTarget sampleURL, h), w') /\
    h !! Upgrade = None /\ h !! "Cookie" = Some ["a=1"] /\ h !! "User-Agent" = Some [""].
Proof.
  destruct (outbound_headers_forwarded refusedEnv sampleTarget sampleRequest
              (sampleWorld {[Upgrade := ["websocket"]; "Cookie" := ["a=1"]]})
              1%positive sampleURL) as (outReq & w' & h & Hrun & Hargs & Hh).
  - reflexivity.
  - reflexivity.
  - intros k [x Hx].
    change (({[Upgrade := ["websocket"]; "Cookie" := ["a=1"]]} : Header) !! k = Some x)
      in Hx.
    apply lookup_insert_Some in Hx as [[<- _]|[_ Hx]]; [reflexivity|].
    apply lookup_singleton_Some in Hx as [<- _]. reflexivity.
  - reflexivity.
  - exists outReq, w', h. split; [exact Hrun|]. split; [exact Hargs|].
    rewrite !Hh. repeat split; reflexivity.
Defined.

(** ** [ServeHTTP]: the branches after the dial *)

Lemma withEvents_app (w : World) (evs evs' : list Event) :
  withEvents (withEvents w evs) evs' = withEvents w (evs ++ evs').
Proof. unfold withEvents. simpl. by rewrite app_assoc. Qed.

Lemma emit_run (e : Event) (w : World) : emit e w = (Returned tt, withEvents w [e]).
Proof. reflexivity. Qed.

Lemma logf_run_Logger (p : ReverseProxy) (lg : logger) (format : string)
    (args : list Arg) (w : World) :
  Logger p = Some lg ->
  logf p format args w = (Returned tt, withEvents w [LoggerPrintf format args]).
Proof. intros H. rewrite logf_run. by rewrite H. Qed.

Lemma getErrorHandler_run (p : ReverseProxy) (lg : logger) (outReq : Request)
    (err : error) (w : World) :
  Logger p = Some lg ->
  getErrorHandler p outReq err w = (Returned tt, withEvents w (handlerEvents p outReq err)).
Proof.
  intros Hlg. unfold getErrorHandler, handlerEvents.
  destruct (ErrorHandler p); [reflexivity|].
  unfold defaultErrorHandler.
  erewrite bind_run; [|by apply (logf_run_Logger p lg)].
  rewrite emit_run. by rewrite withEvents_app.
Qed.

Section AfterDial.

Variable TrimSpace : string -> string.
Variable env : Env.
Variable p : ReverseProxy.
Variables (req outReq : Request) (w w1 : World) (u : URL) (h : Header).
Hypothesis Hout : outboundRequest env p req w = (Returned outReq, w1).
Hypothesis Hargs : dialArguments outReq w1 = (Returned (u, h), w1).

(** [ServeHTTP] up to the answer of the dialer. *)
Lemma ServeHTTP_dialed :
  ServeHTTP TrimSpace env p req w
  = bind (emit (DialContext u h))
      (fun _ =>
         match dial env u h with
         | (resp, Some err) =>
             match resp with
             | None =>
                 logf p "websocket: Error dialing %q: %v" [AStr (req_Host req); AErr err] >>
                 getErrorHandler p outReq err
             | Some resp =>
                 logf p "websocket: Error dialing %q: %v with resp: %d %s"
                   [AStr (req_Host req); AErr err; AInt (StatusCode resp);
                    AStr (Status resp)] >>
                 if negb (isHijacker env) then
                   logf p "websocket: %s can not be hijack" [ATypeOfRw] >>
                   getErrorHandler p outReq err
                 else
                   emit Hijack >>
                   match hijack env with
                   | Some errHijack =>
                       logf p "websocket: Failed to hijack responseWriter" [] >>
                       getErrorHandler p outReq errHijack
                   | None =>
                       defer (emit (Close hijackedConn))
                         (emit RespWrite >>
                          match respWrite env with
                          | Some errWrite =>
                              logf p "websocket: Failed to forward response" [] >>
                              getErrorHandler p outReq errWrite
                          | None => ret tt
                          end)
                   end
             end
         | (None, None) => panic
         | (Some resp, None) =>
             emit (Upgrade_ (upgradeHeader TrimSpace env resp)) >>
             match upgrade env (upgradeHeader TrimSpace env resp) with
             | Some err =>
                 logf p "websocket: Error while upgrading connection : %v" [AErr err]
             | None =>
                 defer (teardown p req)
                   (emit (Go underlyingConn targetConn) >>
                    emit (Go targetConn underlyingConn) >>
                    reportFirst env p)
             end
         end) w1.
Proof.
  unfold ServeHTTP.
  rewrite (bind_run _ _ _ _ _ Hout). rewrite (bind_run _ _ _ _ _ Hargs).
  reflexivity.
Qed.

End AfterDial.

(** The outbound request of the sample request, for any environment and
    any proxy with the Director of the sample target. *)
Lemma sample_outbound (env : Env) (p : ReverseProxy) :
  Director p = director sampleTarget ->
  exists outReq w1 h,
    outboundRequest env p sampleRequest (sampleWorld ∅) = (Returned outReq, w1) /\
    dialArguments outReq w1 = (Returned (rewriteURL sampleTarget sampleURL, h), w1) /\
    trace w1 = [].
Proof.
  intros Hdir. eexists _, _, _. split; [|split].
  - rewrite (outboundRequest_Director env p
               (NewSingleHostReverseProxy sampleTarget)) by exact Hdir.
    apply (outboundRequest_run env sampleTarget sampleRequest (sampleWorld ∅)
             1%positive sampleURL); reflexivity.
  - apply (dialArguments_run _ _ 1%positive); [reflexivity | apply lookup_insert_eq].
  - reflexivity.
Qed.

(** X7.  A dial that fails without a response, with a logger configured:
    [ServeHTTP] logs the failure, hands the outbound request and the dial
    error to the error handler (the default one logs and writes 502), and
    returns; it neither hijacks nor upgrades nor closes anything. *)
Theorem ServeHTTP_dial_failed (TrimSpace : string -> string) (env : Env)
    (p : ReverseProxy) (lg : logger) (req outReq : Request) (w w1 : World)
    (u : URL) (h : Header) (err : error) :
  outboundRequest env p req w = (Returned outReq, w1) ->
  dialArguments outReq w1 = (Returned (u, h), w1) ->
  dial env u h = (None, Some err) ->
  Logger p = Some lg ->
  ServeHTTP TrimSpace env p req w
  = (Returned tt,
     withEvents w1
       ([DialContext u h;
         LoggerPrintf "websocket: Error dialing %q: %v" [AStr (req_Host req); AErr err]]
          ++ handlerEvents p outReq err)).
Proof.
  intros Hout Hargs Hdial Hlg.
  rewrite (ServeHTTP_dialed TrimSpace env p req outReq w w1 u h Hout Hargs).
  erewrite bind_run; [|apply emit_run]. rewrite Hdial.
  erewrite bind_run; [|by apply (logf_run_Logger p lg)].
  rewrite (getErrorHandler_run p lg) by exact Hlg.
  by rewrite !withEvents_app.
Qed.

Lemma ServeHTTP_dial_failed_witness :
  exists outReq w1 h,
    ServeHTTP Strings.TrimSpaceASCII refusedEnv loggingProxy sampleRequest (sampleWorld ∅)
    = (Returned tt,
       withEvents w1
         [DialContext (rewriteURL sampleTarget sampleURL) h;
          LoggerPrintf "websocket: Error dialing %q: %v"
            [AStr "proxy.local"; AErr (OtherErr "dial tcp: connection refused")];
          LoggerPrintf "http: proxy error: %v"
            [AErr (OtherErr "dial tcp: connection refused")];
          WriteHeader 502]) /\
    outboundRequest refusedEnv loggingProxy sampleRequest (sampleWorld ∅)
    = (Returned outReq, w1).
Proof.
  destruct (sample_outbound refusedEnv loggingProxy eq_refl)
    as (outReq & w1 & h & Hout & Hargs & _).
  exists outReq, w1, h. split; [|exact Hout].
  apply (ServeHTTP_dial_failed Strings.TrimSpaceASCII refusedEnv loggingProxy CustomLogger
           sampleRequest outReq (sampleWorld ∅) w1 _ h _ Hout Hargs);
    reflexivity.
Defined.

(** X8.  A dial that fails, with no logger configured: [ServeHTTP] panics
    in its first log call, right after the line went to the default logger;
    the error handler is not called and no status is written. *)
Theorem ServeHTTP_dial_failed_without_logger (TrimSpace : string -> string) (env : Env)
    (p : ReverseProxy) (req outReq : Request) (w w1 : World)
    (u : URL) (h : Header) (resp : option Response) (err : error) :
  outboundRequest env p req w = (Returned outReq, w1) ->
  dialArguments outReq w1 = (Returned (u, h), w1) ->
  dial env u h = (resp, Some err) ->
  Logger p = None ->
  exists format args,
    ServeHTTP TrimSpace env p req w
    = (Panicked, withEvents w1 [DialContext u h; LogPrintf format args]).
Proof.
  intros Hout Hargs Hdial Hlg.
  rewrite (ServeHTTP_dialed TrimSpace env p req outReq w w1 u h Hout Hargs).
  erewrite bind_run; [|apply emit_run]. rewrite Hdial.
  destruct resp as [resp|]; eexists _, _; unfold bind at 1;
    rewrite logf_run, Hlg; unfold withEvents; cbn [headers urls trace];
    by rewrite <- app_assoc.
Qed.

Lemma ServeHTTP_dial_failed_without_logger_witness :
  exists w1 h format args,
    ServeHTTP Strings.TrimSpaceASCII refusedEnv (NewSingleHostReverseProxy sampleTarget)
              sampleRequest (sampleWorld ∅)
    = (Panicked,
       withEvents w1 [DialContext (rewriteURL sampleTarget sampleURL) h;
                      LogPrintf format args]).
Proof.
  destruct (sample_outbound refusedEnv (NewSingleHostReverseProxy sampleTarget) eq_refl)
    as (outReq & w1 & h & Hout & Hargs & _).
  exists w1, h.
  apply (ServeHTTP_dial_failed_without_logger Strings.TrimSpaceASCII refusedEnv
           (NewSingleHostReverseProxy sampleTarget) sampleRequest outReq (sampleWorld ∅)
           w1 _ h None (OtherErr "dial tcp: connection refused") Hout Hargs);
    reflexivity.
Defined.

(** X9.  A dial that fails with a response, with a logger configured, when
    the response writer cannot be hijacked or the hijack fails: [ServeHTTP]
    logs and falls back to the error handler, with the dial error in the
    first case and the hijack error in the second; nothing is written to the
    client connection and nothing is closed. *)
Theorem ServeHTTP_declined_fallback (TrimSpace : string -> string) (env : Env)
    (p : ReverseProxy) (lg : logger) (req outReq : Request) (w w1 : World)
    (u : URL) (h : Header) (resp : Response) (err : error) :
  outboundRequest env p req w = (Returned outReq, w1) ->
  dialArguments outReq w1 = (Returned (u, h), w1) ->
  dial env u h = (Some resp, Some err) ->
  Logger p = Some lg ->
  (isHijacker env = false ->
   ServeHTTP TrimSpace env p req w
   = (Returned tt,
      withEvents w1
        ([DialContext u h;
          LoggerPrintf "websocket: Error dialing %q: %v with resp: %d %s"
            [AStr (req_Host req); AErr err; AInt (StatusCode resp); AStr (Status resp)];
          LoggerPrintf "websocket: %s can not be hijack" [ATypeOfRw]]
           ++ handlerEvents p outReq err))) /\
  (forall errHijack,
     isHijacker env = true -> hijack env = Some errHijack ->
     ServeHTTP TrimSpace env p req w
     = (Returned tt,
        withEvents w1
          ([DialContext u h;
            LoggerPrintf "websocket: Error dialing %q: %v with resp: %d %s"
              [AStr (req_Host req); AErr err; AInt (StatusCode resp); AStr (Status resp)];
            Hijack;
            LoggerPrintf "websocket: Failed to hijack responseWriter" []]
             ++ handlerEvents p outReq errHijack))).
Proof.
  intros Hout Hargs Hdial Hlg.
  rewrite (ServeHTTP_dialed TrimSpace env p req outReq w w1 u h Hout Hargs).
  erewrite bind_run; [|apply emit_run]. rewrite Hdial.
  erewrite bind_run; [|by apply (logf_run_Logger p lg)].
  split.
  - intros ->. cbn [negb].
    erewrite bind_run; [|by apply (logf_run_Logger p lg)].
    rewrite (getErrorHandler_run p lg) by exact Hlg.
    by rewrite !withEvents_app.
  - intros errHijack -> Hhj. cbn [negb].
    erewrite bind_run; [|apply emit_run]. rewrite Hhj.
    erewrite bind_run; [|by apply (logf_run_Logger p lg)].
    rewrite (getErrorHandler_run p lg) by exact Hlg.
    by rewrite !withEvents_app.
Qed.

Lemma ServeHTTP_declined_fallback_witness :
  exists outReq w1 h,
    outboundRequest (declinedEnv false None None) loggingProxy sampleRequest (sampleWorld ∅)
    = (Returned outReq, w1) /\
    ServeHTTP Strings.TrimSpaceASCII (declinedEnv false None None) loggingProxy
              sampleRequest (sampleWorld ∅)
    = (Returned tt,
       withEvents w1
         [DialContext (rewriteURL sampleTarget sampleURL) h;
          LoggerPrintf "websocket: Error dialing %q: %v with resp: %d %s"
            [AStr "proxy.local"; AErr (OtherErr "websocket: bad handshake");
             AInt 403; AStr "403 Forbidden"];
          LoggerPrintf "websocket: %s can not be hijack" [ATypeOfRw];
          LoggerPrintf "http: proxy error: %v" [AErr (OtherErr "websocket: bad handshake")];
          WriteHeader 502]).
Proof.
  destruct (sample_outbound (declinedEnv false None None) loggingProxy eq_refl)
    as (outReq & w1 & h & Hout & Hargs & _).
  exists outReq, w1, h. split; [exact Hout|].
  apply (ServeHTTP_declined_fallback Strings.TrimSpaceASCII (declinedEnv false None None)
           loggingProxy CustomLogger sampleRequest outReq (sampleWorld ∅) w1 _ h
           sampleRefusal (OtherErr "websocket: bad handshake") Hout Hargs);
    reflexivity.
Defined.

(** X10.  A dial that fails with a response, with a logger configured and
    a hijacked client connection: the backend response is written to the
    connection and the connection is closed, once and last, also when the
    write fails and the error handler is called with the write error. *)
Theorem ServeHTTP_declined_relayed (TrimSpace : string -> string) (env : Env)
    (p : ReverseProxy) (lg : logger) (req outReq : Request) (w w1 : World)
    (u : URL) (h : Header) (resp : Response) (err : error) :
  outboundRequest env p req w = (Returned outReq, w1) ->
  dialArguments outReq w1 = (Returned (u, h), w1) ->
  dial env u h = (Some resp, Some err) ->
  Logger p = Some lg ->
  isHijacker env = true -> hijack env = None ->
  ServeHTTP TrimSpace env p req w
  = (Returned tt,
     withEvents w1
       ([DialContext u h;
         LoggerPrintf "websocket: Error dialing %q: %v with resp: %d %s"
           [AStr (req_Host req); AErr err; AInt (StatusCode resp); AStr (Status resp)];
         Hijack; RespWrite]
          ++ match respWrite env with
             | Some errWrite =>
                 LoggerPrintf "websocket: Failed to forward response" []
                   :: handlerEvents p outReq errWrite
             | None => []
             end
          ++ [Close hijackedConn])).
Proof.
  intros Hout Hargs Hdial Hlg Hhj Hhijack.
  rewrite (ServeHTTP_dialed TrimSpace env p req outReq w w1 u h Hout Hargs).
  erewrite bind_run; [|apply emit_run]. rewrite Hdial.
  erewrite bind_run; [|by apply (logf_run_Logger p lg)].
  rewrite Hhj. cbn [negb].
  erewrite bind_run; [|apply emit_run]. rewrite Hhijack.
  unfold defer.
  erewrite bind_run; [|apply emit_run].
  destruct (respWrite env) as [errWrite|].
  - erewrite bind_run; [|by apply (logf_run_Logger p lg)].
    rewrite (getErrorHandler_run p lg) by exact Hlg.
    rewrite emit_run. by rewrite !withEvents_app.
  - unfold ret. rewrite emit_run. by rewrite !withEvents_app.
Qed.

Lemma ServeHTTP_declined_relayed_witness :
  exists outReq w1 h,
    outboundRequest (declinedEnv true None (Some (OtherErr "write: broken pipe")))
      loggingProxy sampleRequest (sampleWorld ∅) = (Returned outReq, w1) /\
    ServeHTTP Strings.TrimSpaceASCII
      (declinedEnv true None (Some (OtherErr "write: broken pipe")))
      loggingProxy sampleRequest (sampleWorld ∅)
    = (Returned tt,
       withEvents w1
         [DialContext (rewriteURL sampleTarget sampleURL) h;
          LoggerPrintf "websocket: Error dialing %q: %v with resp: %d %s"
            [AStr "proxy.local"; AErr (OtherErr "websocket: bad handshake");
             AInt 403; AStr "403 Forbidden"];
          Hijack; RespWrite;
          LoggerPrintf "websocket: Failed to forward response" [];
          LoggerPrintf "http: proxy error: %v" [AErr (OtherErr "write: broken pipe")];
          WriteHeader 502;
          Close hijackedConn]).
Proof.
  destruct (sample_outbound (declinedEnv true None (Some (OtherErr "write: broken pipe")))
              loggingProxy eq_refl)
    as (outReq & w1 & h & Hout & Hargs & _).
  exists outReq, w1, h. split; [exact Hout|].
  apply (ServeHTTP_declined_relayed Strings.TrimSpaceASCII
           (declinedEnv true None (Some (OtherErr "write: broken pipe")))
           loggingProxy CustomLogger sampleRequest outReq (sampleWorld ∅) w1 _ h
           sampleRefusal (OtherErr "websocket: bad handshake") Hout Hargs);
    reflexivity.
Defined.

Lemma reportFirst_run (env : Env) (p : ReverseProxy) (w : World) :
  reportFirst env p w
  = ((reportFirst env p w).1, withEvents w (newEvents (reportFirst env p) w)).
Proof.
  rewrite reportFirst_events. cbv zeta. unfold reportFirst.
  destruct (firstResult env) as [d err]. cbn [fst snd].
  destruct err as [e|msg].
  - destruct (Websocket.Code e =? Websocket.CloseAbnormalClosure)%Z.
    + by rewrite logf_run.
    + unfold ret, withEvents. simpl. rewrite app_nil_r. by destruct w.
  - by rewrite logf_run.
Qed.

Lemma reportFirst_newEvents (env : Env) (p : ReverseProxy) (w w' : World) :
  newEvents (reportFirst env p) w = newEvents (reportFirst env p) w'.
Proof. by rewrite !reportFirst_events. Qed.

Lemma reportFirst_outcome (env : Env) (p : ReverseProxy) (w w' : World) :
  (reportFirst env p w).1 = (reportFirst env p w').1.
Proof.
  unfold reportFirst. destruct (firstResult env) as [d [e|msg]].
  - destruct (Websocket.Code e =? Websocket.CloseAbnormalClosure)%Z;
      [by rewrite !logf_run | reflexivity].
  - by rewrite !logf_run.
Qed.

(** X11.  After a successful upgrade, whatever the first relay result is
    and whether or not it is logged, [ServeHTTP] ends by closing the client
    connection, then the backend connection, then calling the closed hook,
    if there is one, with the inbound request; this also happens when the
    log call panics for want of a logger. *)
Theorem ServeHTTP_teardown (TrimSpace : string -> string) (env : Env)
    (p : ReverseProxy) (req outReq : Request) (w w1 : World)
    (u : URL) (h : Header) (resp : Response) :
  outboundRequest env p req w = (Returned outReq, w1) ->
  dialArguments outReq w1 = (Returned (u, h), w1) ->
  dial env u h = (Some resp, None) ->
  upgrade env (upgradeHeader TrimSpace env resp) = None ->
  ServeHTTP TrimSpace env p req w
  = ((reportFirst env p w1).1,
     withEvents w1
       ([DialContext u h; Upgrade_ (upgradeHeader TrimSpace env resp);
         Go underlyingConn targetConn; Go targetConn underlyingConn]
          ++ newEvents (reportFirst env p) w1
          ++ [Close underlyingConn; Close targetConn]
          ++ hookEvents p req)).
Proof.
  intros Hout Hargs Hdial Hup.
  rewrite (ServeHTTP_dialed TrimSpace env p req outReq w w1 u h Hout Hargs).
  erewrite bind_run; [|apply emit_run]. rewrite Hdial.
  erewrite bind_run; [|apply emit_run]. rewrite Hup.
  unfold defer.
  erewrite bind_run; [|apply emit_run].
  erewrite bind_run; [|apply emit_run].
  rewrite reportFirst_run.
  rewrite (reportFirst_newEvents env p _ w1), (reportFirst_outcome env p _ w1).
  unfold teardown, hookEvents.
  erewrite bind_run; [|apply emit_run].
  erewrite bind_run; [|apply emit_run].
  destruct (WebsocketConnectionClosedHook p).
  - rewrite emit_run. rewrite !withEvents_app.
    do 2 f_equal; by rewrite <- ?app_assoc.
  - unfold ret. rewrite !withEvents_app.
    do 2 f_equal; by rewrite <- ?app_assoc, ?app_nil_r.
Qed.

Lemma ServeHTTP_teardown_witness :
  exists w1 h,
    ServeHTTP Strings.TrimSpaceASCII (closedEnv 1006 "unexpected EOF")
              (mkReverseProxy (director sampleTarget) (Some CustomHook) None None)
              sampleRequest (sampleWorld ∅)
    = (Panicked,
       withEvents w1
         [DialContext (rewriteURL sampleTarget sampleURL) h;
          Upgrade_ ∅;
          Go underlyingConn targetConn; Go targetConn underlyingConn;
          LogPrintf "websocket: Error when copying from client to backend: %v"
            [AErr (CloseErr (Websocket.mkCloseError 1006 "unexpected EOF"))];
          Close underlyingConn; Close targetConn;
          HookCall sampleRequest underlyingConn]).
Proof.
  destruct (sample_outbound (closedEnv 1006 "unexpected EOF")
              (mkReverseProxy (director sampleTarget) (Some CustomHook) None None) eq_refl)
    as (outReq & w1 & h & Hout & Hargs & _).
  exists w1, h.
  rewrite (ServeHTTP_teardown Strings.TrimSpaceASCII (closedEnv 1006 "unexpected EOF")
             (mkReverseProxy (director sampleTarget) (Some CustomHook) None None)
             sampleRequest outReq (sampleWorld ∅) w1 _ h sampleResponse Hout Hargs
             eq_refl eq_refl).
  rewrite reportFirst_events. reflexivity.
Defined.

(** ** The relay loop: order, failures, termination *)

Lemma forwardedAs_Data (msgs : list (Z * list Byte.byte)) :
  concat (forwardedAs <$> ((fun m => Relay.Data m.1 m.2) <$> msgs))
  = (fun m => Relay.Forward m.1 m.2 None) <$> msgs.
Proof.
  induction msgs as [|m msgs IH]; [reflexivity|].
  cbn [fmap list_fmap concat forwardedAs app]. f_equal. exact IH.
Qed.

(** X12.  Data messages that the destination accepts are forwarded in the
    order read, each with its own type and payload, and the loop goes on
    reading without reporting anything. *)
Theorem relay_preserves_order (dst : nat -> option error) (k : nat)
    (msgs : list (Z * list Byte.byte)) :
  (forall i, i < length msgs -> dst (k + i) = None) ->
  Relay.replicateWebsocketConn dst k ((fun m => Relay.Data m.1 m.2) <$> msgs)
  = ((fun m => Relay.Forward m.1 m.2 None) <$> msgs, Relay.Reading).
Proof.
  intros Hdst.
  pose proof (replicate_forwards dst ((fun m => Relay.Data m.1 m.2) <$> msgs) k []) as H.
  rewrite app_nil_r in H. rewrite H.
  - cbn [Relay.replicateWebsocketConn fst snd]. by rewrite app_nil_r, forwardedAs_Data.
  - apply Forall_fmap, Forall_forall. by intros m _.
  - intros i Hi. apply Hdst. by rewrite length_fmap in Hi.
Qed.

Lemma relay_preserves_order_witness :
  Relay.replicateWebsocketConn (fun _ => None) 0
    [Relay.Data Websocket.TextMessage [Byte.x61]; Relay.Data Websocket.BinaryMessage []]
  = ([Relay.Forward Websocket.TextMessage [Byte.x61] None;
      Relay.Forward Websocket.BinaryMessage [] None],
     Relay.Reading).
Proof.
  apply (relay_preserves_order (fun _ => None) 0
           [(Websocket.TextMessage, [Byte.x61]); (Websocket.BinaryMessage, [])]).
  reflexivity.
Defined.

(** X13.  When forwarding a data message fails, the loop sends that error
    on the channel and stops: no close frame is forwarded and nothing more is
    read from the source. *)
Theorem relay_forward_failure (dst : nat -> option error) (k : nat)
    (pre rest : list Relay.Frame) (msgType : Z) (payload : list Byte.byte) (err : error) :
  Forall (fun f => isReadError f = false) pre ->
  (forall i, i < length pre -> dst (k + i) = None) ->
  dst (k + length pre) = Some err ->
  Relay.replicateWebsocketConn dst k (pre ++ Relay.Data msgType payload :: rest)%list
  = (concat (forwardedAs <$> pre)
       ++ [Relay.Forward msgType payload (Some err); Relay.SendErr err],
     Relay.Done)%list.
Proof.
  intros Hpre Hdst Herr.
  rewrite (replicate_forwards dst pre k _ Hpre Hdst).
  cbn [Relay.replicateWebsocketConn]. by rewrite Herr.
Qed.

Lemma relay_forward_failure_witness :
  Relay.replicateWebsocketConn
    (fun i => if (i =? 1)%nat then Some (OtherErr "write: broken pipe") else None) 0
    [Relay.Data Websocket.TextMessage [Byte.x61];
     Relay.Data Websocket.TextMessage [Byte.x62];
     Relay.Data Websocket.TextMessage [Byte.x63]]
  = ([Relay.Forward Websocket.TextMessage [Byte.x61] None;
      Relay.Forward Websocket.TextMessage [Byte.x62] (Some (OtherErr "write: broken pipe"));
      Relay.SendErr (OtherErr "write: broken pipe")],
     Relay.Done).
Proof.
  apply (relay_forward_failure _ 0 [Relay.Data Websocket.TextMessage [Byte.x61]]
           [Relay.Data Websocket.TextMessage [Byte.x63]]).
  - repeat constructor.
  - intros i Hi. simpl in Hi. by replace i with 0 by lia.
  - reflexivity.
Defined.

Lemma onReadError_shape (fwd : option error) (err : error) :
  exists tail,
    Relay.onReadError fwd err = Relay.SendErr err :: tail /\
    (tail = [] \/ exists m, tail = [Relay.Forward Websocket.CloseMessage m fwd]).
Proof.
  unfold Relay.onReadError. destruct (Relay.closeMessage err) as [m|]; eauto.
Qed.

(** X14.  A relay direction reports exactly one error when it stops and
    none while it reads: the trace of a stopped loop is forwards, then the
    one send on the channel, then at most one forward, of a close message. *)
Theorem relay_reports_once (dst : nat -> option error) (src : list Relay.Frame) (k : nat) :
  match (Relay.replicateWebsocketConn dst k src).2 with
  | Relay.Reading =>
      Forall (fun ev => isSendErr ev = false) (Relay.replicateWebsocketConn dst k src).1
  | Relay.Done =>
      exists pre err tail,
        (Relay.replicateWebsocketConn dst k src).1 = (pre ++ Relay.SendErr err :: tail)%list /\
        Forall (fun ev => isSendErr ev = false) pre /\
        (tail = [] \/ exists m res, tail = [Relay.Forward Websocket.CloseMessage m res])
  end.
Proof.
  revert k. induction src as [|f src IH]; intros k; [by constructor|].
  assert (forall msgType payload,
    match (let '(tr, st) := Relay.replicateWebsocketConn dst (S k) src in
           (Relay.Forward msgType payload None :: tr, st)).2 with
    | Relay.Reading =>
        Forall (fun ev => isSendErr ev = false)
          (let '(tr, st) := Relay.replicateWebsocketConn dst (S k) src in
           (Relay.Forward msgType payload None :: tr, st)).1
    | Relay.Done =>
        exists pre err tail,
          (let '(tr, st) := Relay.replicateWebsocketConn dst (S k) src in
           (Relay.Forward msgType payload None :: tr, st)).1
          = (pre ++ Relay.SendErr err :: tail)%list /\
          Forall (fun ev => isSendErr ev = false) pre /\
          (tail = [] \/ exists m res, tail = [Relay.Forward Websocket.CloseMessage m res])
    end) as Hok.
  { intros msgType payload. specialize (IH (S k)).
    destruct (Relay.replicateWebsocketConn dst (S k) src) as [tr [|]]; simpl in *.
    - destruct IH as (pre & err & tail & -> & Hpre & Htail).
      exists (Relay.Forward msgType payload None :: pre), err, tail.
      split; [reflexivity|]. split; [by constructor | exact Htail].
    - by constructor. }
  assert (forall msgType payload err,
    exists pre err' tail,
      (Relay.Forward msgType payload (Some err) :: Relay.onReadError (dst (S k)) err)
      = (pre ++ Relay.SendErr err' :: tail)%list /\
      Forall (fun ev => isSendErr ev = false) pre /\
      (tail = [] \/ exists m res, tail = [Relay.Forward Websocket.CloseMessage m res]))
    as Hfail.
  { intros msgType payload err.
    destruct (onReadError_shape (dst (S k)) err) as (tail & -> & Htail).
    exists [Relay.Forward msgType payload (Some err)], err, tail.
    split; [reflexivity|]. split; [by repeat constructor|].
    destruct Htail as [->|[m ->]]; eauto. }
  destruct f as [msgType payload|data|data|err]; cbn [Relay.replicateWebsocketConn].
  - destruct (dst k) as [err|]; [|apply Hok]. simpl.
    exists [Relay.Forward msgType payload (Some err)], err, [].
    split; [reflexivity|]. split; [by repeat constructor | by left].
  - destruct (dst k) as [err|]; [|apply Hok]. apply Hfail.
  - destruct (dst k) as [err|]; [|apply Hok]. apply Hfail.
  - simpl. destruct (onReadError_shape (dst k) err) as (tail & -> & Htail).
    exists [], err, tail. split; [reflexivity|]. split; [constructor|].
    destruct Htail as [->|[m ->]]; eauto.
Qed.

(** X15.  A close payload the loop forwards never carries one of the codes
    that are not valid on the wire: for a read error whose close code fits
    the two bytes of a frame, the payload reads back with a code other than
    "no status received", "abnormal closure" and "TLS handshake failure". *)
Theorem close_payload_code_valid (err : error) (m : list Byte.byte) :
  Relay.closeMessage err = Some m ->
  (forall e, err = CloseErr e -> (0 <= Websocket.Code e < 65536)%Z) ->
  exists code text,
    Websocket.parseCloseMessage m = Some (code, text) /\
    code <> Websocket.CloseNoStatusReceived /\
    code <> Websocket.CloseAbnormalClosure /\
    code <> Websocket.CloseTLSHandshake.
Proof.
  intros Hm Hrange. rewrite closeMessage_translation in Hm.
  destruct (closeTranslation err) as [[code text]|] eqn:Htr; [|discriminate].
  injection Hm as <-. cbn [fst snd].
  assert ((0 <= code < 65536)%Z /\ code <> Websocket.CloseNoStatusReceived /\
          code <> Websocket.CloseAbnormalClosure /\ code <> Websocket.CloseTLSHandshake)
    as (Hc & H5 & H6 & H15).
  { unfold closeTranslation in Htr. destruct err as [e|d].
    - specialize (Hrange e eq_refl).
      destruct (Z.eqb_spec (Websocket.Code e) Websocket.CloseNoStatusReceived) as [He|He].
      + injection Htr as <- _. repeat split; (done || by vm_compute).
      + destruct (Z.eqb_spec (Websocket.Code e) Websocket.CloseAbnormalClosure) as [Ha|Ha];
          [discriminate|].
        destruct (Z.eqb_spec (Websocket.Code e) Websocket.CloseTLSHandshake) as [Ht|Ht];
          [discriminate|].
        injection Htr as <- _. done.
    - injection Htr as <- _. repeat split; (done || by vm_compute). }
  exists code, text. split; [by apply parse_FormatCloseMessage | done].
Qed.

Lemma close_payload_code_valid_witness :
  exists code text,
    Websocket.parseCloseMessage
      (Websocket.FormatCloseMessage 1000 "websocket: close 1005 (no status)")
    = Some (code, text) /\
    code <> Websocket.CloseNoStatusReceived /\
    code <> Websocket.CloseAbnormalClosure /\
    code <> Websocket.CloseTLSHandshake.
Proof.
  apply (close_payload_code_valid (CloseErr (Websocket.mkCloseError 1005 ""))).
  - reflexivity.
  - intros e [= <-]. simpl. lia.
Defined.

(** ** [singleJoiningSlash]: what is kept *)

Lemma prefix_app (a t : string) : String.prefix a (a ++ t) = true.
Proof.
  induction a as [|c a IH]; [by destruct t|].
  rewrite string_app_cons. cbn [String.prefix].
  by destruct (ascii_dec c c).
Qed.

Lemma sliceFrom_one_length (b : string) :
  Strings.HasPrefix b "/" = true ->
  String.length (Strings.sliceFrom 1 b) + 1 = String.length b.
Proof. destruct b as [|c b]; [discriminate|]. simpl. lia. Qed.

(** X16.  [singleJoiningSlash a b] begins with [a], unchanged, and loses
    no byte of [a] and [b] other than the leading slash of [b] when [a]
    already ends with one; a slash is added when neither has one. *)
Theorem singleJoiningSlash_keeps_prefix (a b : string) :
  String.prefix a (singleJoiningSlash a b) = true /\
  String.length (singleJoiningSlash a b)
  = if Strings.HasSuffix a "/" && Strings.HasPrefix b "/"
    then String.length a + String.length b - 1
    else if negb (Strings.HasSuffix a "/") && negb (Strings.HasPrefix b "/")
    then String.length a + String.length b + 1
    else String.length a + String.length b.
Proof.
  unfold singleJoiningSlash.
  destruct (Strings.HasSuffix a "/") eqn:Ha, (Strings.HasPrefix b "/") eqn:Hb;
    cbn [andb negb]; (split; [apply prefix_app|]);
    rewrite ?string_length_app; cbn [String.length]; try lia.
  pose proof (sliceFrom_one_length b Hb). lia.
Qed.

(** ** The headers handed to the upgrader *)

(** X17.  The headers already set on the response writer are merged in
    after the stripping, so they all reach the upgrader, hop-by-hop names
    included: under each of its keys the upgrader receives what is left of
    the backend's values followed by the response writer's. *)
Theorem upgradeHeader_keeps_writer_headers (TrimSpace : string -> string) (env : Env)
    (resp : Response) (k v : string) (vs : list string) :
  canonicalKeys (rwHeader env) ->
  rangeOrder env (rwHeader env) ≡ₚ map_to_list (rwHeader env) ->
  rwHeader env !! k = Some (v :: vs) ->
  upgradeHeader TrimSpace env resp !! k
  = Some (default [] (stripHopByHop TrimSpace (resp_Header resp) !! k) ++ v :: vs)%list.
Proof.
  intros Hkeys Hperm Hk. unfold upgradeHeader. rewrite copyHeader_lookup.
  assert (NoDup (rangeOrder env (rwHeader env)).*1) as Hnd.
  { rewrite Hperm. apply NoDup_fst_map_to_list. }
  rewrite valuesUnder_NoDup; [|exact Hnd|].
  - rewrite (list_to_map_proper (M := gmap string) _ _ Hnd Hperm).
    rewrite list_to_map_to_list, Hk. reflexivity.
  - intros [key vv] Hin. rewrite Hperm in Hin.
    apply elem_of_map_to_list in Hin. apply Hkeys. by eexists.
Qed.

Lemma upgradeHeader_keeps_writer_headers_witness :
  upgradeHeader Strings.TrimSpaceASCII (writerEnv {[Upgrade := ["h2c"]]}) sampleResponse
    !! Upgrade
  = Some ["h2c"].
Proof.
  rewrite (upgradeHeader_keeps_writer_headers Strings.TrimSpaceASCII
             (writerEnv {[Upgrade := ["h2c"]]}) sampleResponse Upgrade "h2c" []).
  - reflexivity.
  - intros k [x Hx]. cbn [rwHeader writerEnv] in Hx.
    apply lookup_singleton_Some in Hx as [<- _]. reflexivity.
  - reflexivity.
  - reflexivity.
Defined.

(** ** [ServeHTTP] and the store *)

Lemma keepsStore_ret {A : Type} (a : A) : keepsStore (ret a).
Proof. by intros w. Qed.

Lemma keepsStore_panic {A : Type} : keepsStore (@panic A).
Proof. by intros w. Qed.

Lemma keepsStore_emit (e : Event) : keepsStore (emit e).
Proof. by intros w. Qed.

Lemma keepsStore_bind {A B : Type} (m : M A) (f : A -> M B) :
  keepsStore m -> (forall a, keepsStore (f a)) -> keepsStore (bind m f).
Proof.
  intros Hm Hf w. unfold bind. destruct (Hm w) as [Hh Hu].
  destruct (m w) as [[a|] w1]; simpl in *; [|done].
  destruct (Hf a w1) as [Hh' Hu']. split; congruence.
Qed.

Lemma keepsStore_defer {A : Type} (d : M unit) (body : M A) :
  keepsStore d -> keepsStore body -> keepsStore (defer d body).
Proof.
  intros Hd Hb w. unfold defer. destruct (Hb w) as [Hh Hu].
  destruct (body w) as [o w1]. destruct (Hd w1) as [Hh' Hu'].
  destruct (d w1) as [[[]|] w2]; simpl in *; split; congruence.
Qed.

Lemma keepsStore_logf (p : ReverseProxy) (format : string) (args : list Arg) :
  keepsStore (logf p format args).
Proof. intros w. by rewrite logf_run. Qed.

Lemma keepsStore_getErrorHandler (p : ReverseProxy) (outReq : Request) (err : error) :
  keepsStore (getErrorHandler p outReq err).
Proof.
  unfold getErrorHandler. destruct (ErrorHandler p); [apply keepsStore_emit|].
  unfold defaultErrorHandler.
  apply keepsStore_bind; [apply keepsStore_logf | intros _; apply keepsStore_emit].
Qed.

Lemma keepsStore_reportFirst (env : Env) (p : ReverseProxy) : keepsStore (reportFirst env p).
Proof. intros w. by rewrite reportFirst_run. Qed.

Lemma keepsStore_teardown (p : ReverseProxy) (req : Request) : keepsStore (teardown p req).
Proof.
  unfold teardown.
  apply keepsStore_bind; [apply keepsStore_emit | intros _].
  apply keepsStore_bind; [apply keepsStore_emit | intros _].
  destruct (WebsocketConnectionClosedHook p); [apply keepsStore_emit | apply keepsStore_ret].
Qed.

Lemma keepsStore_dialArguments (outReq : Request) : keepsStore (dialArguments outReq).
Proof.
  intros w. pose proof (dialArguments_header outReq w) as H.
  unfold dialArguments, bind, loadURL in *.
  destruct (req_URL outReq ≫= _); by simpl.
Qed.

Lemma bind_keepsStore_after {A B : Type} (m : M A) (f : A -> M B) (w : World) :
  (forall a, keepsStore (f a)) ->
  headers (bind m f w).2 = headers (m w).2 /\ urls (bind m f w).2 = urls (m w).2.
Proof.
  intros Hf. unfold bind. destruct (m w) as [[a|] w1]; simpl; [apply Hf | done].
Qed.

(** From the dial on, [ServeHTTP] changes nothing in the store. *)
Lemma ServeHTTP_from_dial (TrimSpace : string -> string) (env : Env) (p : ReverseProxy)
    (req : Request) (w : World) :
  headers (ServeHTTP TrimSpace env p req w).2 = headers (outboundRequest env p req w).2 /\
  urls (ServeHTTP TrimSpace env p req w).2 = urls (outboundRequest env p req w).2.
Proof.
  unfold ServeHTTP. apply bind_keepsStore_after. intros outReq.
  apply keepsStore_bind; [apply keepsStore_dialArguments|].
  intros [u h]. cbn [fst snd].
  apply keepsStore_bind; [apply keepsStore_emit | intros _].
  destruct (dial env u h) as [[resp|] [err|]].
  - apply keepsStore_bind; [apply keepsStore_logf | intros _].
    destruct (negb (isHijacker env)).
    + apply keepsStore_bind; [apply keepsStore_logf | intros _].
      apply keepsStore_getErrorHandler.
    + apply keepsStore_bind; [apply keepsStore_emit | intros _].
      destruct (hijack env).
      * apply keepsStore_bind; [apply keepsStore_logf | intros _].
        apply keepsStore_getErrorHandler.
      * apply keepsStore_defer; [apply keepsStore_emit|].
        apply keepsStore_bind; [apply keepsStore_emit | intros _].
        destruct (respWrite env); [|apply keepsStore_ret].
        apply keepsStore_bind; [apply keepsStore_logf | intros _].
        apply keepsStore_getErrorHandler.
  - apply keepsStore_bind; [apply keepsStore_emit | intros _].
    destruct (upgrade env _); [apply keepsStore_logf|].
    apply keepsStore_defer; [apply keepsStore_teardown|].
    apply keepsStore_bind; [apply keepsStore_emit | intros _].
    apply keepsStore_bind; [apply keepsStore_emit | intros _].
    apply keepsStore_reportFirst.
  - apply keepsStore_bind; [apply keepsStore_logf | intros _].
    apply keepsStore_getErrorHandler.
  - apply keepsStore_panic.
Qed.

(** X18.  From start to end, on every path, [ServeHTTP] with the Director
    of the single-host proxy changes no header set that was in the store, and
    it leaves the URL object of the inbound request rewritten to the target:
    the caller's request keeps its headers and loses its URL. *)
Theorem ServeHTTP_store (TrimSpace : string -> string) (env : Env) (p : ReverseProxy)
    (target : URL) (req : Request) (w : World) :
  Director p = director target ->
  headers w ⊆ headers (ServeHTTP TrimSpace env p req w).2 /\
  (forall lu u,
     req_URL req = Some lu -> urls w !! lu = Some u ->
     urls (ServeHTTP TrimSpace env p req w).2 !! lu = Some (rewriteURL target u)).
Proof.
  intros Hdir.
  destruct (ServeHTTP_from_dial TrimSpace env p req w) as [Hh Hu].
  rewrite Hh, Hu.
  rewrite (outboundRequest_Director env p (NewSingleHostReverseProxy target)) by exact Hdir.
  split; [apply outboundRequest_frame|].
  intros lu u Hlu Hurl.
  pose proof (outboundRequest_run env target req w lu u Hlu Hurl) as Hrun.
  cbv zeta in Hrun. rewrite Hrun. simpl. apply lookup_insert_eq.
Qed.

Lemma ServeHTTP_store_witness :
  urls (ServeHTTP Strings.TrimSpaceASCII refusedEnv loggingProxy sampleRequest
                  (sampleWorld {[Upgrade := ["websocket"]]})).2 !! 1%positive
  = Some (mkURL "wss" "backend:8443" "/base/ws" "t=1&q=2") /\
  headers (ServeHTTP Strings.TrimSpaceASCII refusedEnv loggingProxy sampleRequest
                     (sampleWorld {[Upgrade := ["websocket"]]})).2 !! 1%positive
  = Some {[Upgrade := ["websocket"]]}.
Proof.
  destruct (ServeHTTP_store Strings.TrimSpaceASCII refusedEnv loggingProxy sampleTarget
              sampleRequest (sampleWorld {[Upgrade := ["websocket"]]}) eq_refl)
    as [Hsub Hurl].
  split.
  - apply (Hurl 1%positive sampleURL); reflexivity.
  - rewrite map_subseteq_spec in Hsub. apply Hsub. reflexivity.
Defined.

(** X19.  A request without a URL: the Director of the single-host proxy
    panics on its first access, so [ServeHTTP] panics before it dials; no
    event is added to the trace and no URL of the store is changed. *)
Theorem ServeHTTP_without_URL (TrimSpace : string -> string) (env : Env)
    (p : ReverseProxy) (target : URL) (req : Request) (w : World) :
  Director p = director target -> req_URL req = None ->
  (ServeHTTP TrimSpace env p req w).1 = Panicked /\
  trace (ServeHTTP TrimSpace env p req w).2 = trace w /\
  urls (ServeHTTP TrimSpace env p req w).2 = urls w.
Proof.
  intros Hdir Hurl.
  assert (exists w', outboundRequest env p req w = (Panicked, w') /\
                     trace w' = trace w /\ urls w' = urls w) as (w' & Hout & Htr & Hu).
  { unfold outboundRequest.
    erewrite bind_run; [|reflexivity].
    erewrite bind_run; [|reflexivity].
    erewrite bind_run;
      [|apply (writeThrough_run _ _ _ ∅); simpl; apply lookup_insert_eq].
    rewrite Hdir. unfold director at 1. cbn [req_URL]. rewrite Hurl.
    eexists. split; [reflexivity|]. by split. }
  unfold ServeHTTP, bind. rewrite Hout. by simpl.
Qed.

Lemma ServeHTTP_without_URL_witness :
  (ServeHTTP Strings.TrimSpaceASCII refusedEnv loggingProxy
             (mkRequest "proxy.local" None (Some 1%positive)) (sampleWorld ∅)).1 = Panicked /\
  trace (ServeHTTP Strings.TrimSpaceASCII refusedEnv loggingProxy
                   (mkRequest "proxy.local" None (Some 1%positive)) (sampleWorld ∅)).2 = [].
Proof.
  destruct (ServeHTTP_without_URL Strings.TrimSpaceASCII refusedEnv loggingProxy sampleTarget
              (mkRequest "proxy.local" None (Some 1%positive)) (sampleWorld ∅)
              eq_refl eq_refl) as (Hp & Htr & _).
  split; [exact Hp | exact Htr].
Defined.
